(** * Graph Season Game: puzzle state machine, score ledger, leaderboard

    A shallow embedding of the two source files of the game

    - [src/frontend/src/App.js]: the 3x3 puzzle ([isAdjacent],
      [handleSquareClick], [resetGame]) and the client side [submitScore];
    - [src/backend/server.js]: the handlers of [POST /api/scores],
      [GET /api/leaderboard] and [GET /api/user/score]

    followed by the properties of the specification, each one proved or
    refuted on these definitions. *)

From Stdlib Require Import ZArith QArith Qcanon Lia String Ascii.
From stdpp Require Import base option list numbers strings gmap sorting.

Local Open Scope Z_scope.

(* ===================================================================== *)
(** * Part I: the puzzle ([App.js])                                       *)
(* ===================================================================== *)

Module Puzzle.

(** ** JavaScript arrays

    A slot of a JavaScript array holds a number or nothing ([undefined], which
    is also what a read past the end gives).  The grid only ever holds
    integers, so a number is a [Z]. *)

Inductive jsval : Type :=
  | Num (n : Z)
  | Undefined.

#[global] Instance jsval_eq_dec : EqDecision jsval.
Proof. solve_decision. Defined.

(** [a[i]]: a read out of range gives [undefined]. *)
Definition js_get (a : list jsval) (i : nat) : jsval :=
  default Undefined (a !! i).

(** [a[i] = v]: a write past the end extends the array, the slots in
    between are holes. *)
Definition js_set (a : list jsval) (i : nat) (v : jsval) : list jsval :=
  if decide (i < length a)%nat then <[i:=v]> a
  else a ++ replicate (i - length a) Undefined ++ [v].

(** ** Component state

    The [useState] cells of [GraphSeasonGame] that the game logic reads or
    writes.  The cells that only drive the presentation ([showAuth],
    [showLeaderboard], [authForm], [authError], [leaderboard], [loading],
    [submitSuccess]) are left out.  [moves] counts swaps and stays far below
    2^53, where JavaScript numbers stop being exact: it is an integer. *)

Record Session : Type := mkSession {
  s_name : string;
  s_email : string;
  s_token : string;
}.

Record State : Type := mkState {
  currentUser : option Session;
  grid : list jsval;
  moves : Z;
  selectedSquare : option nat;
  gameWon : bool;
}.

Definition initialGrid : list jsval :=
  Num <$> [3; 6; 4; 2; 5; 8; 1; 7; 9].

Definition targetGrid : list jsval :=
  Num <$> [1; 2; 3; 4; 5; 6; 7; 8; 9].

(** The state on mount: nobody logged in, [[...initialGrid]], no move, no
    selection, not won. *)
Definition initialState (u : option Session) : State :=
  {| currentUser := u; grid := initialGrid; moves := 0;
     selectedSquare := None; gameWon := false |}.

(** ** Outgoing requests

    The only effect of the game logic outside the component state: the
    [fetch] of [submitScore], a [POST /scores] with the bearer token and the
    body [{moves: finalMoves}]. *)

Inductive Request : Type :=
  | PostScores (token : string) (finalMoves : Z).

(** [submitScore]: nothing is sent when nobody is logged in. *)
Definition submitScore (u : option Session) (finalMoves : Z) : list Request :=
  match u with
  | None => []
  | Some usr => [PostScores (s_token usr) finalMoves]
  end.

(** ** [isAdjacent]

    Indices are array indices, so [Math.floor(index / 3)] and [index % 3]
    are the quotient and the remainder of a natural number. *)
Definition isAdjacent (index1 index2 : nat) : bool :=
  let row1 := Z.of_nat index1 / 3 in
  let col1 := Z.of_nat index1 mod 3 in
  let row2 := Z.of_nat index2 / 3 in
  let col2 := Z.of_nat index2 mod 3 in
  (bool_decide (Z.abs (row1 - row2) = 1) && bool_decide (col1 = col2))
  || (bool_decide (Z.abs (col1 - col2) = 1) && bool_decide (row1 = row2)).

(** ** [handleSquareClick]

    One click, run to completion: the new state and the requests sent.  The
    destructuring assignment evaluates its right-hand side
    [[newGrid[index], newGrid[selectedSquare]]] first and then writes slot
    [selectedSquare], then slot [index].  [JSON.stringify] prints an array of
    integers and holes injectively (a hole prints as [null]), so comparing the
    two strings is comparing the two arrays. *)
Definition handleSquareClick (s : State) (index : nat) : State * list Request :=
  if gameWon s then (s, [])
  else
    match selectedSquare s with
    | None =>
        (mkState (currentUser s) (grid s) (moves s) (Some index) (gameWon s), [])
    | Some sel =>
        if decide (sel = index) then
          (mkState (currentUser s) (grid s) (moves s) None (gameWon s), [])
        else if isAdjacent sel index then
          let a := js_get (grid s) index in
          let b := js_get (grid s) sel in
          let newGrid := js_set (js_set (grid s) sel a) index b in
          if bool_decide (newGrid = targetGrid) then
            (mkState (currentUser s) newGrid (moves s + 1) None true,
             match currentUser s with
             | Some _ => submitScore (currentUser s) (moves s + 1)
             | None => []
             end)
          else
            (mkState (currentUser s) newGrid (moves s + 1) None (gameWon s), [])
        else
          (mkState (currentUser s) (grid s) (moves s) (Some index) (gameWon s), [])
    end.

(** The grid that the swap branch of [handleSquareClick] builds: the two
    writes of its destructuring assignment. *)
Definition swapCells (a : list jsval) (sel index : nat) : list jsval :=
  js_set (js_set a sel (js_get a index)) index (js_get a sel).

(** ** [resetGame] *)
Definition resetGame (s : State) : State :=
  mkState (currentUser s) initialGrid 0 None false.

(** ** Sessions of play

    What the user can do to the game state: click a square, press Reset, and
    log in or out ([setCurrentUser], called by [handleAuth] and [logout]). *)
Inductive Action : Type :=
  | Click (index : nat)
  | Reset
  | SetCurrentUser (u : option Session).

Definition step (s : State) (a : Action) : State * list Request :=
  match a with
  | Click index => handleSquareClick s index
  | Reset => (resetGame s, [])
  | SetCurrentUser u =>
      (mkState u (grid s) (moves s) (selectedSquare s) (gameWon s), [])
  end.

(** A sequence of actions, with the requests sent along the way in order. *)
Fixpoint run (s : State) (l : list Action) : State * list Request :=
  match l with
  | [] => (s, [])
  | a :: l' =>
      let '(s1, out1) := step s a in
      let '(s2, out2) := run s1 l' in
      (s2, out1 ++ out2)
  end.

(** The board renders one button per grid cell ([grid.map]), so a click
    carries the index of a cell of the 3x3 board. *)
Definition onBoard (a : Action) : bool :=
  match a with
  | Click index => bool_decide (index < 9)%nat
  | _ => true
  end.

(** The clicks of a shortest solution of the initial grid: ten swaps. *)
Definition solution : list Action :=
  Click <$> [0; 1; 0; 3; 1; 2; 0; 1; 3; 4; 3; 6; 0; 3; 4; 5; 6; 7; 4; 7]%nat.


(** What every action on the board maintains: the grid is a rearrangement
    of the values 1 to 9, and the selected cell, if any, is on the board. *)
Definition boardInvariant (s : State) : Prop :=
  grid s ≡ₚ targetGrid
  ∧ ∀ sel, selectedSquare s = Some sel → (sel < 9)%nat.

End Puzzle.

(* ===================================================================== *)
(** * Part II: the server ([server.js])                                   *)
(* ===================================================================== *)

Module Server.

(** ** Data

    A JavaScript number that is finite is a rational, and the handlers only
    compare the [moves] they receive, so [moves] is a canonical rational [Qc]
    (the body of a request is JSON, where [NaN] cannot be written; a literal
    too large for a double is outside the model).  Dates are milliseconds
    since the epoch.  An [ObjectId] is a natural number. *)

Record User : Type := mkUser {
  name : string;
  email : string;
  registeredAt : Z;
}.

(** [scoreSchema] (the [createdAt]/[updatedAt] pair of [timestamps: true] is
    left out: no handler reads it). *)
Record Score : Type := mkScore {
  userId : nat;
  moves : Qc;
  completedAt : Z;
  gameConfiguration : list Z;
}.

#[global] Instance Score_eq_dec : EqDecision Score.
Proof. solve_decision. Defined.

Definition defaultGameConfiguration : list Z := [3; 6; 4; 2; 5; 8; 1; 7; 9].

(** [moves: { type: Number, required: true, min: 1 }], checked by [save()]. *)
Definition validateScore (sc : Score) : bool := bool_decide (1 ≤ moves sc)%Qc.

(** A response: [res.status(c).json(body)] or [res.status(c).json({error})]. *)
Inductive Response (A : Type) : Type :=
  | Json (status : Z) (body : A)
  | Error (status : Z) (error : string).
Arguments Json {A} status body.
Arguments Error {A} status error.

(** ** [POST /api/scores] *)

Record ScoreResult : Type := mkScoreResult {
  r_moves : Qc;
  r_completedAt : Z;
  improved : bool;
}.

Record ScoreBody : Type := mkScoreBody {
  message : string;
  score : ScoreResult;
}.

(** [Score.findOne({ userId })]: the first document of the collection that
    matches, with its position. *)
Definition findOne (uid : nat) (scores : list Score) : option (nat * Score) :=
  list_find (λ sc, userId sc = uid) scores.

(** The handler, after [authenticateToken] has put the verified [uid] in
    [req.user.userId].  [bodyMoves] is [req.body.moves], a number ([None]
    when the body has no such field), [now] the clock.  It returns the
    response and the [scores] collection after the request.  [!moves] holds
    of the number 0 only; [existingScore.save()] writes the document where
    [findOne] found it, [score.save()] adds one at the end. *)
Definition postScores (users : gmap nat User) (scores : list Score)
    (now : Z) (uid : nat) (bodyMoves : option Qc)
    : Response ScoreBody * list Score :=
  match bodyMoves with
  | None => (Error 400 "Valid moves count is required", scores)
  | Some m =>
      if bool_decide (m = 0%Qc) || bool_decide (m < 1)%Qc then
        (Error 400 "Valid moves count is required", scores)
      else
        match users !! uid with
        | None => (Error 404 "User not found", scores)
        | Some _ =>
            match findOne uid scores with
            | Some (i, existingScore) =>
                if bool_decide (m < moves existingScore)%Qc then
                  let savedScore :=
                    mkScore (userId existingScore) m now
                            (gameConfiguration existingScore) in
                  if validateScore savedScore then
                    (Json 200
                       (mkScoreBody "New best score updated!"
                          (mkScoreResult (moves savedScore)
                                         (completedAt savedScore) true)),
                     <[i:=savedScore]> scores)
                  else (Error 500 "Internal server error", scores)
                else
                  (Json 200
                     (mkScoreBody "Score submitted, but not your best"
                        (mkScoreResult (moves existingScore)
                                       (completedAt existingScore) false)),
                   scores)
            | None =>
                let savedScore := mkScore uid m now defaultGameConfiguration in
                if validateScore savedScore then
                  (Json 201
                     (mkScoreBody "Score submitted successfully!"
                        (mkScoreResult (moves savedScore)
                                       (completedAt savedScore) true)),
                   scores ++ [savedScore])
                else (Error 500 "Internal server error", scores)
            end
        end
  end.

(** A request to [POST /api/scores] as the server sees it: the users
    registered at that time, the clock, the authenticated user, the body. *)
Record Submission : Type := mkSubmission {
  sub_users : gmap nat User;
  sub_now : Z;
  sub_uid : nat;
  sub_moves : option Qc;
}.

(** The [scores] collection after a sequence of requests. *)
Fixpoint submitAll (scores : list Score) (l : list Submission) : list Score :=
  match l with
  | [] => scores
  | r :: l' =>
      submitAll
        (snd (postScores (sub_users r) scores (sub_now r) (sub_uid r) (sub_moves r)))
        l'
  end.

(** ** [GET /api/leaderboard] *)

(** *** [parseInt]

    [parseInt(string)] without a radix: leading white space is skipped, then
    an optional sign, then an optional [0x]/[0X] that selects radix 16, then
    the longest run of digits of the radix.  No digit at all gives [NaN],
    here [None].  A string is a sequence of code units below 256, and the
    result an exact integer.  The white space of JavaScript below 256 is the
    space, the five characters from the tab to the carriage return, and the
    no-break space. *)

Definition isWhiteSpace (c : ascii) : bool :=
  let n := nat_of_ascii c in
  bool_decide (n = 32 ∨ 9 ≤ n ≤ 13 ∨ n = 160)%nat.

Fixpoint trimStart (s : string) : string :=
  match s with
  | String c s' => if isWhiteSpace c then trimStart s' else s
  | EmptyString => s
  end.

Definition digitValue (c : ascii) : option Z :=
  let n := Z.of_nat (nat_of_ascii c) in
  if bool_decide (48 ≤ n ≤ 57) then Some (n - 48)
  else if bool_decide (97 ≤ n ≤ 122) then Some (n - 87)
  else if bool_decide (65 ≤ n ≤ 90) then Some (n - 55)
  else None.

(** The value of the longest prefix of radix-[R] digits, [acc] being the
    value read so far ([None]: no digit yet). *)
Fixpoint parseDigits (R : Z) (acc : option Z) (s : string) : option Z :=
  match s with
  | EmptyString => acc
  | String c s' =>
      match digitValue c with
      | Some d =>
          if bool_decide (d < R) then parseDigits R (Some (default 0 acc * R + d)) s'
          else acc
      | None => acc
      end
  end.

Definition parseInt (input : string) : option Z :=
  let s := trimStart input in
  let '(sign, s) :=
    match s with
    | String "-" s' => (-1, s')
    | String "+" s' => (1, s')
    | _ => (1, s)
    end in
  let '(R, s) :=
    match s with
    | String "0" (String "x" s') => (16, s')
    | String "0" (String "X" s') => (16, s')
    | _ => (10, s)
    end in
  (λ n, sign * n) <$> parseDigits R None s.

(** [parseInt(req.query.x) || d]: an absent parameter is [undefined], which
    [parseInt] reads as the string ["undefined"]; [NaN] and [0] are falsy. *)
Definition parseIntOr (q : option string) (d : Z) : Z :=
  match parseInt (default "undefined" q) with
  | Some n => if bool_decide (n = 0) then d else n
  | None => d
  end.

(** *** The aggregation pipeline *)

(** [$lookup] into [users] on [userId = _id], then [$unwind: "$user"]: one
    document per score whose user exists, none for the others. *)
Definition lookupUnwind (users : gmap nat User) (scores : list Score)
    : list (Score * User) :=
  omap (λ sc, (λ u, (sc, u)) <$> users !! userId sc) scores.

(** [$sort: { moves: 1, completedAt: 1 }].  MongoDB does not say in which
    order documents that agree on both keys come out; the merge sort of the
    model fixes one, that of the collection.  [Pipeline] below takes any. *)
Definition sortOrder (x y : Score * User) : Prop :=
  (moves x.1 < moves y.1)%Qc
  ∨ (moves x.1 = moves y.1 ∧ completedAt x.1 ≤ completedAt y.1).

#[global] Instance sortOrder_dec : RelDecision sortOrder.
Proof. intros x y. unfold sortOrder. apply _. Defined.

Definition sortStage (docs : list (Score * User)) : list (Score * User) :=
  merge_sort sortOrder docs.

(** The documents in leaderboard order, before any window is cut out. *)
Definition globalOrdering (users : gmap nat User) (scores : list Score)
    : list (Score * User) :=
  sortStage (lookupUnwind users scores).

(** The whole pipeline.  MongoDB refuses a pipeline whose [$skip] is negative
    or whose [$limit] is not positive: [aggregate] then throws ([None]). *)
Definition aggregate (users : gmap nat User) (scores : list Score)
    (skip limit : Z) : option (list (Score * User)) :=
  if bool_decide (skip < 0) || bool_decide (limit ≤ 0) then None
  else
    Some (take (Z.to_nat limit)
            (drop (Z.to_nat skip) (globalOrdering users scores))).

(** *** The handler *)

(** An entry of the answer (its [date] field, the calendar day of
    [completedAt], is left out). *)
Record Entry : Type := mkEntry {
  rank : Z;
  e_name : string;
  e_email : string;
  e_moves : Qc;
  e_completedAt : Z;
}.

Record Pagination : Type := mkPagination {
  currentPage : Z;
  totalPages : Z;
  totalScores : Z;
  hasNext : bool;
  hasPrev : bool;
}.

Record LeaderboardBody : Type := mkLeaderboardBody {
  leaderboard : list Entry;
  pagination : Pagination;
}.

(** [Math.ceil(a / b)] on integers. *)
Definition ceilDiv (a b : Z) : Z := - ((- a) / b).

Definition rankEntry (skip : Z) (index : nat) (entry : Score * User) : Entry :=
  mkEntry (skip + Z.of_nat index + 1) (name entry.2) (email entry.2)
          (moves entry.1) (completedAt entry.1).

Definition getLeaderboard (users : gmap nat User) (scores : list Score)
    (queryLimit queryPage : option string) : Response LeaderboardBody :=
  let limit := parseIntOr queryLimit 50 in
  let page := parseIntOr queryPage 1 in
  let skip := (page - 1) * limit in
  match aggregate users scores skip limit with
  | None => Error 500 "Internal server error"
  | Some docs =>
      let rankedLeaderboard := imap (rankEntry skip) docs in
      let total := Z.of_nat (length scores) in
      Json 200
        (mkLeaderboardBody rankedLeaderboard
           (mkPagination page (ceilDiv total limit) total
              (bool_decide (page * limit < total))
              (bool_decide (page > 1))))
  end.

(** ** [GET /api/user/score] *)

Inductive UserScoreBody : Type :=
  | NoScore
  | HasScore (u_moves : Qc) (u_completedAt : Z) (u_rank : Z).

(** The filter of [countDocuments]: strictly fewer moves, or as many moves
    and strictly earlier. *)
Definition better (than sc : Score) : Prop :=
  (moves sc < moves than)%Qc
  ∨ (moves sc = moves than ∧ completedAt sc < completedAt than).

#[global] Instance better_dec than sc : Decision (better than sc).
Proof. unfold better. apply _. Defined.

Definition getUserScore (scores : list Score) (uid : nat)
    : Response UserScoreBody :=
  match findOne uid scores with
  | None => Json 200 NoScore
  | Some (_, sc) =>
      let betterScores := length (filter (better sc) scores) in
      let rank := Z.of_nat betterScores + 1 in
      Json 200 (HasScore (moves sc) (completedAt sc) rank)
  end.

(** ** Sample data

    Five registered players and their records, in the order of submission;
    and two players who finished with the same moves in the same
    millisecond. *)

Definition sampleUsers : gmap nat User :=
  list_to_map
    [(1%nat, mkUser "Alice Kumar" "cs22b1001@iiitdm.ac.in" 0);
     (2%nat, mkUser "Bob Sharma" "me21a2002@iiitdm.ac.in" 0);
     (3%nat, mkUser "Carol Singh" "ec23b3003@iiitdm.ac.in" 0);
     (4%nat, mkUser "David Patel" "cs22a4004@iiitdm.ac.in" 0);
     (5%nat, mkUser "Eva Reddy" "me23c5005@iiitdm.ac.in" 0)].

Definition sampleScores : list Score :=
  [mkScore 1 (Qc_of_Z 20) 1000 defaultGameConfiguration;
   mkScore 2 (Qc_of_Z 10) 2000 defaultGameConfiguration;
   mkScore 3 (Qc_of_Z 10) 1500 defaultGameConfiguration;
   mkScore 4 (Qc_of_Z 30) 500 defaultGameConfiguration;
   mkScore 5 (Qc_of_Z 15) 3000 defaultGameConfiguration].

Definition tiedScores : list Score :=
  [mkScore 1 (Qc_of_Z 10) 1000 defaultGameConfiguration;
   mkScore 2 (Qc_of_Z 10) 1000 defaultGameConfiguration].

End Server.

Module Pipeline.
Import Server.

(** ** What [$sort] leaves open

    [$sort: { moves: 1, completedAt: 1 }] gives back the documents it was
    given, in an order that follows the two keys.  Of two documents with the
    same [moves] and the same [completedAt] MongoDB does not say which comes
    first, and it sorts anew for every request: the order of such documents
    may differ from one request to the next.  [sortedBy docs sorted] says
    that [sorted] is a possible output of the stage on the input [docs]. *)
Definition sortedBy (docs sorted : list (Score * User)) : Prop :=
  sorted ≡ₚ docs ∧ StronglySorted sortOrder sorted.

(** The pipeline of [GET /api/leaderboard] and the handler, given the output
    [sorted] of the [$sort] stage of the request; [total] is what
    [Score.countDocuments()] returns.  [Server.getLeaderboard] is the
    handler for the output that the merge sort gives. *)
Definition aggregateOf (sorted : list (Score * User)) (skip limit : Z)
    : option (list (Score * User)) :=
  if bool_decide (skip < 0) || bool_decide (limit ≤ 0) then None
  else Some (take (Z.to_nat limit) (drop (Z.to_nat skip) sorted)).

Definition getLeaderboardOf (sorted : list (Score * User)) (total : Z)
    (queryLimit queryPage : option string) : Response LeaderboardBody :=
  let limit := parseIntOr queryLimit 50 in
  let page := parseIntOr queryPage 1 in
  let skip := (page - 1) * limit in
  match aggregateOf sorted skip limit with
  | None => Error 500 "Internal server error"
  | Some docs =>
      let rankedLeaderboard := imap (rankEntry skip) docs in
      Json 200
        (mkLeaderboardBody rankedLeaderboard
           (mkPagination page (ceilDiv total limit) total
              (bool_decide (page * limit < total))
              (bool_decide (page > 1))))
  end.

(** The records that have both the moves and the completion time of [sc],
    [sc] itself included. *)
Definition tiedWith (sc : Score) (scores : list Score) : list Score :=
  filter (λ sc', moves sc' = moves sc ∧ completedAt sc' = completedAt sc) scores.

End Pipeline.

(* ===================================================================== *)
(** * The rest of the server: accounts, tokens, statistics ([server.js])  *)
(* ===================================================================== *)

Module Text.

(** ** String methods

    A string is a sequence of code units below 256, as for [parseInt]
    above. *)

(** [s.toLowerCase()].  Below 256 the capitals are [A] to [Z] and the
    accented capitals from 192 to 222, the multiplication sign (215) apart;
    the small letter is 32 further. *)
Definition toLowerChar (c : ascii) : ascii :=
  let n := nat_of_ascii c in
  if bool_decide (65 ≤ n ≤ 90 ∨ (192 ≤ n ≤ 222 ∧ n ≠ 215))%nat
  then ascii_of_nat (n + 32) else c.

Fixpoint toLowerCase (s : string) : string :=
  match s with
  | EmptyString => EmptyString
  | String c s' => String (toLowerChar c) (toLowerCase s')
  end.

(** [s.trim()]: white space is removed at both ends. *)
Fixpoint trimEnd (s : string) : string :=
  match s with
  | EmptyString => EmptyString
  | String c s' =>
      match trimEnd s' with
      | EmptyString => if Server.isWhiteSpace c then EmptyString else String c EmptyString
      | t => String c t
      end
  end.

Definition trim (s : string) : string := trimEnd (Server.trimStart s).

(** [s.split(sep)] for a separator of one character. *)
Fixpoint split (sep : ascii) (s : string) : list string :=
  match s with
  | EmptyString => [EmptyString]
  | String c s' =>
      if decide (c = sep) then EmptyString :: split sep s'
      else match split sep s' with
           | w :: ws => String c w :: ws
           | [] => [String c EmptyString]
           end
  end.

(** ** The pattern of an institute address

    [/^[a-zA-Z]{2}\d{2}[a-zA-Z]{1}\d{4}@iiitdm\.ac\.in$/], the regular
    expression of [validateEmail] in [App.js] and of the [email] validator of
    [userSchema] in [server.js].  It has no choice and no repetition of
    unknown length: [test] reads nine characters and compares the rest. *)

Definition isLetter (c : ascii) : bool :=
  let n := nat_of_ascii c in
  bool_decide (65 ≤ n ≤ 90 ∨ 97 ≤ n ≤ 122)%nat.

Definition isDigit (c : ascii) : bool :=
  let n := nat_of_ascii c in
  bool_decide (48 ≤ n ≤ 57)%nat.

Definition patternTest (s : string) : bool :=
  match s with
  | String l1 (String l2 (String d1 (String d2 (String l3
      (String d3 (String d4 (String d5 (String d6 rest)))))))) =>
      isLetter l1 && isLetter l2 && isDigit d1 && isDigit d2 && isLetter l3
      && isDigit d3 && isDigit d4 && isDigit d5 && isDigit d6
      && bool_decide (rest = "@iiitdm.ac.in")
  | _ => false
  end.

(** A string without the character [c]. *)
Definition without (c : ascii) (s : string) : Prop :=
  c ∉ list_ascii_of_string s.

End Text.

Module Accounts.
Import Server Text.

(** ** What the handlers take from libraries

    [jsonwebtoken] signs and verifies tokens (with the secret and, for
    [verify], the clock of the moment), and mongoose words the message of a
    [ValidationError].  None of the three is code of this repository: the
    handlers are given them. *)

Record JwtPayload : Type := mkJwtPayload {
  jwt_userId : nat;
  jwt_email : string;
}.

Record Library : Type := mkLibrary {
  sign : JwtPayload → string;
  verify : string → option JwtPayload;
  validationMessage : User → string;
}.

(** ** [userSchema]

    The setters ([trim: true] on [name], [lowercase: true] on [email]) run
    when the document is built, the validators when it is saved. *)

Definition newUser (name email : string) (now : Z) : User :=
  mkUser (trim name) (toLowerCase email) now.

Definition validateUser (u : User) : bool :=
  negb (bool_decide (name u = ""))
  && bool_decide (2 ≤ String.length (name u))%nat
  && bool_decide (String.length (name u) ≤ 50)%nat
  && negb (bool_decide (email u = ""))
  && patternTest (email u).

(** [User.findOne({ email })].  The unique index on [email] leaves at most one
    match, so the order in which the collection is searched does not
    matter. *)
Definition findUserByEmail (users : gmap nat User) (e : string)
    : option (nat * User) :=
  snd <$> list_find (λ p, email p.2 = e) (map_to_list users).

(** No two accounts with the same address. *)
Definition uniqueEmails (users : gmap nat User) : Prop :=
  ∀ i j u v, users !! i = Some u → users !! j = Some v →
             email u = email v → i = j.

(** What a registration needs to succeed: a name of 2 to 50 characters
    once trimmed, an address that matches the pattern once in lower case,
    and no account with that address yet. *)
Definition canRegister (users : gmap nat User) (n e : string) : Prop :=
  (2 ≤ String.length (trim n) ≤ 50)%nat
  ∧ patternTest (toLowerCase e) = true
  ∧ ∀ i u, users !! i = Some u → email u ≠ toLowerCase e.

(** ** [POST /api/auth/register] and [POST /api/auth/login] *)

Record PublicUser : Type := mkPublicUser {
  p_id : nat;
  p_name : string;
  p_email : string;
}.

Record AuthBody : Type := mkAuthBody {
  a_message : string;
  a_user : PublicUser;
  a_token : string;
}.

(** The two handlers on the bodies that the client sends: [bodyName] and
    [bodyEmail] are [req.body.name] and [req.body.email], strings when
    present ([registerBody] and [loginBody] below take any JSON value);
    [newId] is the [ObjectId] that the new document gets, [now] the clock.
    The handler returns the response and the [users] collection after the
    request. *)
Definition register (L : Library) (users : gmap nat User) (now : Z) (newId : nat)
    (bodyName bodyEmail : option string) : Response AuthBody * gmap nat User :=
  match bodyName, bodyEmail with
  | Some name, Some email =>
      if bool_decide (name = "") || bool_decide (email = "") then
        (Error 400 "Name and email are required", users)
      else if bool_decide (String.length (trim name) < 2)%nat then
        (Error 400 "Name must be at least 2 characters long", users)
      else
        match findUserByEmail users (toLowerCase email) with
        | Some _ => (Error 400 "Email already registered", users)
        | None =>
            let user := newUser (trim name) (toLowerCase email) now in
            if validateUser user then
              (Json 201
                 (mkAuthBody "User registered successfully"
                    (mkPublicUser newId (Server.name user) (Server.email user))
                    (sign L (mkJwtPayload newId (Server.email user)))),
               <[newId:=user]> users)
            else (Error 400 (validationMessage L user), users)
        end
  | _, _ => (Error 400 "Name and email are required", users)
  end.

Definition login (L : Library) (users : gmap nat User)
    (bodyEmail : option string) : Response AuthBody :=
  match bodyEmail with
  | None => Error 400 "Email is required"
  | Some email =>
      if bool_decide (email = "") then Error 400 "Email is required"
      else
        match findUserByEmail users (toLowerCase email) with
        | None => Error 404 "User not found"
        | Some (id, user) =>
            Json 200
              (mkAuthBody "Login successful"
                 (mkPublicUser id (Server.name user) (Server.email user))
                 (sign L (mkJwtPayload id (Server.email user))))
        end
  end.

(** ** Bodies that are not what the client sends

    [express.json()] hands the handlers whatever JSON the request carried: a
    field of [req.body] may be missing ([undefined]) or hold any JSON value.
    Of an array or an object the two handlers only use that it is truthy and
    that it has no method [trim] or [toLowerCase] (no JSON value is a
    function): their contents are left out. *)
Inductive BodyValue : Type :=
  | JUndefined
  | JNull
  | JBool (b : bool)
  | JNumber (q : Qc)
  | JString (s : string)
  | JArray
  | JObject.

(** [!v] is false. *)
Definition truthy (v : BodyValue) : bool :=
  match v with
  | JUndefined | JNull => false
  | JBool b => b
  | JNumber q => negb (bool_decide (q = 0%Qc))
  | JString s => negb (bool_decide (s = ""))
  | JArray | JObject => true
  end.

(** The two handlers on any body.  [name.trim()] and [email.toLowerCase()]
    throw a [TypeError] when [name] or [email] is not a string; the [catch]
    of the handler answers it with a 500, a [ValidationError] of [save()]
    with a 400. *)
Definition registerBody (L : Library) (users : gmap nat User) (now : Z)
    (newId : nat) (name email : BodyValue)
    : Response AuthBody * gmap nat User :=
  if negb (truthy name) || negb (truthy email) then
    (Error 400 "Name and email are required", users)
  else
    match name with
    | JString name =>
        if bool_decide (String.length (trim name) < 2)%nat then
          (Error 400 "Name must be at least 2 characters long", users)
        else
          match email with
          | JString email =>
              match findUserByEmail users (toLowerCase email) with
              | Some _ => (Error 400 "Email already registered", users)
              | None =>
                  let user := newUser (trim name) (toLowerCase email) now in
                  if validateUser user then
                    (Json 201
                       (mkAuthBody "User registered successfully"
                          (mkPublicUser newId (Server.name user)
                                        (Server.email user))
                          (sign L (mkJwtPayload newId (Server.email user)))),
                     <[newId:=user]> users)
                  else (Error 400 (validationMessage L user), users)
              end
          | _ => (Error 500 "Internal server error", users)
          end
    | _ => (Error 500 "Internal server error", users)
    end.

Definition loginBody (L : Library) (users : gmap nat User)
    (email : BodyValue) : Response AuthBody :=
  if negb (truthy email) then Error 400 "Email is required"
  else
    match email with
    | JString email =>
        match findUserByEmail users (toLowerCase email) with
        | None => Error 404 "User not found"
        | Some (id, user) =>
            Json 200
              (mkAuthBody "Login successful"
                 (mkPublicUser id (Server.name user) (Server.email user))
                 (sign L (mkJwtPayload id (Server.email user))))
        end
    | _ => Error 500 "Internal server error"
    end.

(** ** [authenticateToken]

    [authorization] is the header of that name.  The token is the second of
    the pieces that single spaces cut the header into; no header, no second
    piece or an empty one is a 401, a token that does not verify a 403,
    otherwise the payload becomes [req.user] and the handler runs. *)
Inductive Authentication : Type :=
  | Rejected (status : Z) (error : string)
  | Authenticated (user : JwtPayload).

Definition bearerToken (authorization : option string) : option string :=
  match authorization with
  | None => None
  | Some authHeader =>
      if bool_decide (authHeader = "") then None
      else
        match split " " authHeader !! 1%nat with
        | Some token => if bool_decide (token = "") then None else Some token
        | None => None
        end
  end.

Definition authenticateToken (L : Library) (authorization : option string)
    : Authentication :=
  match bearerToken authorization with
  | None => Rejected 401 "Access token required"
  | Some token =>
      match verify L token with
      | None => Rejected 403 "Invalid token"
      | Some user => Authenticated user
      end
  end.

(** The two protected routes: the middleware, then the handler. *)
Definition scoresRoute (L : Library) (users : gmap nat User)
    (scores : list Score) (now : Z) (authorization : option string)
    (bodyMoves : option Qc) : Response ScoreBody * list Score :=
  match authenticateToken L authorization with
  | Rejected status error => (Error status error, scores)
  | Authenticated user => postScores users scores now (jwt_userId user) bodyMoves
  end.

Definition userScoreRoute (L : Library) (scores : list Score)
    (authorization : option string) : Response UserScoreBody :=
  match authenticateToken L authorization with
  | Rejected status error => Error status error
  | Authenticated user => getUserScore scores (jwt_userId user)
  end.

(** ** The [scores] collection, kept well

    What every record of a well-kept collection satisfies, for the accounts
    [U] of the end: one record per player, of an account, with the starting
    grid. *)
Definition wellKept (U : gmap nat User) (scores : list Score) : Prop :=
  NoDup (userId <$> scores)
  ∧ Forall (λ sc, is_Some (U !! userId sc)
                  ∧ gameConfiguration sc = defaultGameConfiguration) scores.

(** ** [GET /api/stats]

    The [$group] stage gives one document with the least and the greatest
    [moves], and no document for an empty collection; [bestScore] and
    [worstScore] are then 0.  The two counts are those of the collections.
    ([averageMoves] and [completionRate] are rounded floating-point
    quotients and are left out.) *)

Definition Qcmin2 (a b : Qc) : Qc := if decide (a ≤ b)%Qc then a else b.
Definition Qcmax2 (a b : Qc) : Qc := if decide (a ≤ b)%Qc then b else a.

Fixpoint groupMinMax (scores : list Score) : option (Qc * Qc) :=
  match scores with
  | [] => None
  | sc :: scores' =>
      match groupMinMax scores' with
      | None => Some (moves sc, moves sc)
      | Some (lo, hi) => Some (Qcmin2 (moves sc) lo, Qcmax2 (moves sc) hi)
      end
  end.

Record StatsBody : Type := mkStatsBody {
  st_totalUsers : Z;
  st_totalScores : Z;
  bestScore : Qc;
  worstScore : Qc;
}.

Definition getStats (users : gmap nat User) (scores : list Score) : StatsBody :=
  let gameStats := default (0%Qc, 0%Qc) (groupMinMax scores) in
  mkStatsBody (Z.of_nat (size users)) (Z.of_nat (length scores))
              gameStats.1 gameStats.2.

End Accounts.

(* ===================================================================== *)
(** * The rest of the client: registration form ([App.js])                *)
(* ===================================================================== *)

Module Client.
Import Puzzle Text.

(** [validateEmail]. *)
Definition validateEmail (email : string) : bool := patternTest email.

(** The cells of the registration screen. *)
Record AuthForm : Type := mkAuthForm {
  f_name : string;
  f_email : string;
}.

Record AuthUi : Type := mkAuthUi {
  showAuth : bool;
  authForm : AuthForm;
  authError : string;
  loading : bool;
}.

(** The body of the [POST /auth/register] that [handleAuth] sends. *)
Record RegisterRequest : Type := mkRegisterRequest {
  rq_name : string;
  rq_email : string;
}.

(** What comes back: an answer with [response.ok] and [data.user],
    [data.token]; an answer without [response.ok], with or without
    [data.error]; or an exception ([fetch] or [response.json()] threw). *)
Inductive RegisterReply : Type :=
  | ReplyOk (name email token : string)
  | ReplyError (error : option string)
  | ReplyThrew.

(** [handleAuth], given the reply that the request gets if it is sent: the
    new [currentUser], the new cells of the screen, the requests sent. *)
Definition handleAuth (currentUser : option Session) (ui : AuthUi)
    (reply : RegisterReply)
    : option Session * AuthUi * list RegisterRequest :=
  let form := authForm ui in
  if bool_decide (trim (f_name form) = "") then
    (currentUser, mkAuthUi (showAuth ui) form "Name is required" false, [])
  else if negb (validateEmail (f_email form)) then
    (currentUser,
     mkAuthUi (showAuth ui) form
              "Email must match format: cs23b2007@iiitdm.ac.in" false,
     [])
  else
    let request :=
      mkRegisterRequest (trim (f_name form)) (toLowerCase (f_email form)) in
    match reply with
    | ReplyOk name email token =>
        (Some (mkSession name email token),
         mkAuthUi false (mkAuthForm "" "") "" false,
         [request])
    | ReplyError error =>
        let shown :=
          match error with
          | Some e => if bool_decide (e = "") then "Registration failed" else e
          | None => "Registration failed"
          end in
        (currentUser, mkAuthUi (showAuth ui) form shown false, [request])
    | ReplyThrew =>
        (Some (mkSession (trim (f_name form)) (toLowerCase (f_email form))
                         "offline-token"),
         mkAuthUi false (mkAuthForm "" "")
                  "Network error. Using offline mode." false,
         [request])
    end.

(** ** The wire

    How a request of the client reaches a handler of the server: [fetch]
    sends [Authorization: Bearer <token>] and the JSON of [{moves}], which
    [express.json()] parses back to the same integer; the answer to a
    registration comes back with [response.ok] for a status from 200 to
    299, and the handlers only answer [{error}] with other statuses. *)
Definition authorizationOf (r : Request) : option string :=
  match r with
  | PostScores token _ => Some ("Bearer " +:+ token)
  end.

Definition bodyMovesOf (r : Request) : option Qc :=
  match r with
  | PostScores _ finalMoves => Some (Qc_of_Z finalMoves)
  end.

Definition replyOf (r : Server.Response Accounts.AuthBody) : RegisterReply :=
  match r with
  | Server.Json status body =>
      if bool_decide (200 ≤ status ≤ 299) then
        ReplyOk (Accounts.p_name (Accounts.a_user body))
                (Accounts.p_email (Accounts.a_user body))
                (Accounts.a_token body)
      else ReplyError None
  | Server.Error status error => ReplyError (Some error)
  end.

(** ** Vocabulary for the statements on sessions of play *)

(** The users that were logged in at some point of a run. *)
Definition sessionsOf (u : option Session) (l : list Action) : list Session :=
  omap id (u :: omap (λ a, match a with
                           | SetCurrentUser v => Some v
                           | _ => None
                           end) l).

(** How many times Reset was pressed. *)
Fixpoint resetsOf (l : list Action) : nat :=
  match l with
  | [] => 0
  | Reset :: l' => S (resetsOf l')
  | _ :: l' => resetsOf l'
  end.

(** What holds of a state and of the requests sent so far, relative to the
    users [us] seen so far and the number [n] of resets so far. *)
Definition sendInvariant (us : list Session) (n : nat)
    (r : State * list Request) : Prop :=
  0 ≤ moves r.1
  ∧ (∀ usr, currentUser r.1 = Some usr → usr ∈ us)
  ∧ Forall (λ rq, match rq with
                  | PostScores token finalMoves =>
                      1 ≤ finalMoves ∧ ∃ usr, usr ∈ us ∧ token = s_token usr
                  end) r.2
  ∧ (length r.2 + (if gameWon r.1 then 0 else 1) ≤ n + 1)%nat.

End Client.

(* ===================================================================== *)
(** * Part III: properties of the puzzle                                  *)
(* ===================================================================== *)

Section PuzzleProperties.
Import Puzzle.

(** ** Array reads after array writes *)

Lemma js_set_in_range (a : list jsval) (i : nat) (v : jsval) :
  (i < length a)%nat → js_set a i v = <[i:=v]> a.
Proof. intros Hi. unfold js_set. by rewrite decide_True. Qed.

Lemma js_get_set_eq (a : list jsval) (i : nat) (v : jsval) :
  js_get (js_set a i v) i = v.
Proof.
  unfold js_get, js_set. case_decide as Hi.
  - by rewrite list_lookup_insert_eq.
  - rewrite lookup_app_r by lia.
    rewrite lookup_app_r by (rewrite length_replicate; lia).
    rewrite length_replicate.
    by replace (i - length a - (i - length a))%nat with 0%nat by lia.
Qed.

Lemma js_get_set_ne (a : list jsval) (i k : nat) (v : jsval) :
  k ≠ i → js_get (js_set a i v) k = js_get a k.
Proof.
  intros Hk. unfold js_get, js_set. case_decide as Hi.
  - by rewrite list_lookup_insert_ne.
  - destruct (decide (k < length a)%nat) as [Hlt|Hge].
    + by rewrite lookup_app_l.
    + rewrite lookup_app_r by lia.
      rewrite (lookup_ge_None_2 a k) by lia. simpl.
      destruct (decide (k < i)%nat).
      * rewrite lookup_app_l by (rewrite length_replicate; lia).
        by rewrite lookup_replicate_2 by lia.
      * rewrite lookup_ge_None_2; [done|].
        rewrite length_app, length_replicate. simpl. lia.
Qed.

Lemma js_set_length_in_range (a : list jsval) (i : nat) (v : jsval) :
  (i < length a)%nat → length (js_set a i v) = length a.
Proof. intros Hi. rewrite js_set_in_range by done. apply length_insert. Qed.

Lemma swapCells_get (a : list jsval) (sel index k : nat) :
  sel ≠ index →
  js_get (swapCells a sel index) k
  = if decide (k = sel) then js_get a index
    else if decide (k = index) then js_get a sel
    else js_get a k.
Proof.
  intros Hne. unfold swapCells.
  destruct (decide (k = index)) as [->|Hk].
  - rewrite js_get_set_eq. by rewrite decide_False by done.
  - rewrite js_get_set_ne by done.
    destruct (decide (k = sel)) as [->|Hk'].
    + by rewrite js_get_set_eq.
    + by rewrite js_get_set_ne.
Qed.

Lemma swapCells_length (a : list jsval) (sel index : nat) :
  (sel < length a)%nat → (index < length a)%nat →
  length (swapCells a sel index) = length a.
Proof.
  intros Hs Hi. unfold swapCells.
  rewrite js_set_length_in_range; rewrite js_set_length_in_range; done.
Qed.

Lemma swapCells_lookup (a : list jsval) (sel index k : nat) :
  (sel < length a)%nat → (index < length a)%nat → sel ≠ index →
  swapCells a sel index !! k
  = a !! (if decide (k = sel) then index
          else if decide (k = index) then sel else k).
Proof.
  intros Hs Hi Hne.
  assert (Hget : ∀ (b : list jsval) n, (n < length b)%nat →
                 b !! n = Some (js_get b n)).
  { intros b n Hn. unfold js_get.
    destruct (lookup_lt_is_Some_2 b n Hn) as [x ->]. done. }
  destruct (decide (k < length a)%nat) as [Hk|Hk].
  - rewrite Hget by (rewrite swapCells_length; done).
    rewrite swapCells_get by done.
    repeat case_decide; subst; by rewrite Hget.
  - rewrite lookup_ge_None_2 by (rewrite swapCells_length; [lia|done..]).
    repeat case_decide; subst; try lia.
    by rewrite lookup_ge_None_2 by lia.
Qed.

Lemma swapCells_Permutation (a : list jsval) (sel index : nat) :
  (sel < length a)%nat → (index < length a)%nat → sel ≠ index →
  swapCells a sel index ≡ₚ a.
Proof.
  intros Hs Hi Hne. apply Permutation_inj. split.
  - by apply swapCells_length.
  - exists (λ k, if decide (k = sel) then index
                 else if decide (k = index) then sel else k).
    split.
    + intros x y. repeat case_decide; subst; congruence.
    + intros k. by apply swapCells_lookup.
Qed.

(** ** One click, case by case *)

Lemma click_when_won (s : State) (index : nat) :
  gameWon s = true → handleSquareClick s index = (s, []).
Proof. intros Hw. unfold handleSquareClick. by rewrite Hw. Qed.

Lemma click_selects (s : State) (index : nat) :
  gameWon s = false → selectedSquare s = None →
  handleSquareClick s index
  = (mkState (currentUser s) (grid s) (moves s) (Some index) false, []).
Proof. intros Hw Hs. unfold handleSquareClick. by rewrite Hw, Hs. Qed.

Lemma click_swaps (s : State) (sel index : nat) :
  gameWon s = false → selectedSquare s = Some sel →
  sel ≠ index → isAdjacent sel index = true →
  handleSquareClick s index
  = let newGrid := swapCells (grid s) sel index in
    let won := bool_decide (newGrid = targetGrid) in
    (mkState (currentUser s) newGrid (moves s + 1) None won,
     if won then submitScore (currentUser s) (moves s + 1) else []).
Proof.
  intros Hw Hs Hne Hadj. unfold handleSquareClick, swapCells.
  rewrite Hw, Hs, decide_False, Hadj by done. simpl.
  case_bool_decide; [|done]. by destruct (currentUser s).
Qed.

(** The clicks that do not swap leave the grid and the counter alone. *)
Lemma click_cases (s : State) (index : nat) :
  (∃ sel, gameWon s = false ∧ selectedSquare s = Some sel ∧ sel ≠ index
          ∧ isAdjacent sel index = true)
  ∨ (∃ sq, handleSquareClick s index
           = (mkState (currentUser s) (grid s) (moves s) sq (gameWon s), [])
           ∧ (sq = selectedSquare s ∨ sq = Some index ∨ sq = None)).
Proof.
  unfold handleSquareClick.
  destruct (gameWon s) eqn:Hw.
  { right. exists (selectedSquare s). split; [|by left].
    by destruct s; simplify_eq/=. }
  destruct (selectedSquare s) as [sel|] eqn:Hs; [|right; eauto 6].
  case_decide; [right; eauto 6|].
  destruct (isAdjacent sel index) eqn:Hadj; [|right; eauto 6].
  left. eauto.
Qed.

Lemma run_app (s : State) (l1 l2 : list Action) :
  run s (l1 ++ l2)
  = ((run (run s l1).1 l2).1, (run s l1).2 ++ (run (run s l1).1 l2).2).
Proof.
  revert s. induction l1 as [|a l1 IH]; intros s; simpl.
  - by destruct (run s l2).
  - destruct (step s a) as [s1 out1]. rewrite IH.
    destruct (run s1 l1) as [s2 out2]. simpl.
    destruct (run s2 l2) as [s3 out3]. simpl. by rewrite app_assoc.
Qed.

End PuzzleProperties.

Section PuzzleClaims.
Import Puzzle.

(** [isAdjacent] is the adjacency of the specification: the two cells are
    one row apart in the same column, or one column apart in the same row. *)
Lemma isAdjacent_rows_cols (i j : nat) :
  isAdjacent i j = true ↔
    (Z.abs (Z.of_nat (i / 3) - Z.of_nat (j / 3)) = 1 ∧ (i mod 3 = j mod 3)%nat)
    ∨ (Z.abs (Z.of_nat (i mod 3) - Z.of_nat (j mod 3)) = 1 ∧ (i / 3 = j / 3)%nat).
Proof.
  unfold isAdjacent.
  rewrite !(Nat2Z.inj_div _ 3), !(Nat2Z.inj_mod _ 3). simpl Z.of_nat.
  rewrite orb_true_iff, !andb_true_iff, !bool_decide_eq_true.
  assert (H3 : ∀ n m : nat, (n mod 3 = m mod 3)%nat
                 ↔ Z.of_nat n mod 3 = Z.of_nat m mod 3).
  { intros n m. rewrite <- !(Nat2Z.inj_mod _ 3). lia. }
  assert (H4 : ∀ n m : nat, (n / 3 = m / 3)%nat
                 ↔ Z.of_nat n / 3 = Z.of_nat m / 3).
  { intros n m. rewrite <- !(Nat2Z.inj_div _ 3). lia. }
  rewrite H3, H4. done.
Qed.

(** C3.  From a state of the game in play with no cell selected (the
    puzzle is not solved: a solved puzzle is a state of its own, which only
    a reset leaves), clicking two distinct adjacent cells [i] and [j] of the
    board exchanges the values of the two cells and leaves every other cell
    alone, adds exactly one to the move counter and clears the selection; a
    nine-cell grid stays a nine-cell grid. *)
Theorem adjacent_clicks_swap (s : State) (i j : nat) :
  gameWon s = false → selectedSquare s = None →
  (i < 9)%nat → (j < 9)%nat → i ≠ j → isAdjacent i j = true →
  let s' := (run s [Click i; Click j]).1 in
  js_get (grid s') i = js_get (grid s) j
  ∧ js_get (grid s') j = js_get (grid s) i
  ∧ (∀ k, k ≠ i → k ≠ j → js_get (grid s') k = js_get (grid s) k)
  ∧ (length (grid s) = 9%nat → length (grid s') = 9%nat)
  ∧ moves s' = moves s + 1
  ∧ selectedSquare s' = None.
Proof.
  intros Hw Hs Hi Hj Hne Hadj. simpl.
  rewrite click_selects by done.
  rewrite (click_swaps _ i j) by done. simpl.
  rewrite !swapCells_get by done.
  rewrite decide_True by done.
  rewrite decide_False by done. rewrite decide_True by done.
  split_and!; try done.
  - intros k Hki Hkj. rewrite swapCells_get by done.
    by rewrite !decide_False by done.
  - intros Hlen. rewrite swapCells_length; [done|lia..].
Qed.

Lemma adjacent_clicks_swap_witness :
  let s := initialState None in
  let s' := (run s [Click 0%nat; Click 1%nat]).1 in
  js_get (grid s') 0 = js_get (grid s) 1
  ∧ js_get (grid s') 1 = js_get (grid s) 0
  ∧ (∀ k, k ≠ 0%nat → k ≠ 1%nat → js_get (grid s') k = js_get (grid s) k)
  ∧ (length (grid s) = 9%nat → length (grid s') = 9%nat)
  ∧ moves s' = moves s + 1
  ∧ selectedSquare s' = None.
Proof.
  apply (adjacent_clicks_swap (initialState None) 0 1);
    [reflexivity | reflexivity | lia | lia | lia | reflexivity].
Defined.

(** The game has to be in play: a solved puzzle has no cell selected
    either, and there [handleSquareClick] returns at once, so that the two
    clicks do nothing. *)
Lemma adjacent_clicks_ignored_when_solved :
  ¬ (∀ (s : State) (i j : nat),
       selectedSquare s = None → length (grid s) = 9%nat →
       (i < 9)%nat → (j < 9)%nat → i ≠ j → isAdjacent i j = true →
       let s' := (run s [Click i; Click j]).1 in
       js_get (grid s') i = js_get (grid s) j
       ∧ js_get (grid s') j = js_get (grid s) i
       ∧ moves s' = moves s + 1
       ∧ selectedSquare s' = None).
Proof.
  intros H.
  specialize (H (run (initialState None) solution).1 0%nat 1%nat).
  vm_compute in H.
  destruct H as (Hswap & _); [done | done | lia | lia | lia | done |].
  discriminate Hswap.
Qed.

(** ** Winning *)





(** The solution played by a logged-in user: won at the tenth swap, one
    request, with 10 moves. *)
Example solution_sends_ten :
  run (initialState (Some (mkSession "Asha" "cs22b1001@iiitdm.ac.in" "token")))
      solution
  = (mkState (Some (mkSession "Asha" "cs22b1001@iiitdm.ac.in" "token"))
             targetGrid 10 None true,
     [PostScores "token" 10]).
Proof. reflexivity. Qed.


(** C8.  In a solved state every further click, and so every sequence of
    clicks, changes nothing and sends nothing; [resetGame] gives back the
    initial configuration, unsolved, where a click selects again. *)
Theorem solved_until_reset (s : State) (l : list nat) (index : nat) :
  gameWon s = true →
  handleSquareClick s index = (s, [])
  ∧ run s (Click <$> l) = (s, [])
  ∧ resetGame s = initialState (currentUser s)
  ∧ gameWon (resetGame s) = false
  ∧ selectedSquare (handleSquareClick (resetGame s) index).1 = Some index.
Proof.
  intros Hw. split_and!; try done.
  - by apply click_when_won.
  - induction l as [|i l IH]; [done|].
    rewrite fmap_cons. cbn [run step].
    rewrite click_when_won by done. by rewrite IH.
Qed.

Lemma solved_until_reset_witness :
  let s := mkState None targetGrid 10 None true in
  handleSquareClick s 4 = (s, [])
  ∧ run s (Click <$> [0; 1; 4]%nat) = (s, [])
  ∧ resetGame s = initialState (currentUser s)
  ∧ gameWon (resetGame s) = false
  ∧ selectedSquare (handleSquareClick (resetGame s) 4).1 = Some 4%nat.
Proof.
  apply (solved_until_reset (mkState None targetGrid 10 None true) [0; 1; 4]%nat 4).
  reflexivity.
Defined.

(** ** The grid is a permutation *)

Lemma boardInvariant_initial (u : option Session) :
  boardInvariant (initialState u).
Proof.
  split; [|done]. simpl. apply Permutation_inj. split; [done|].
  exists (λ k, match k with
               | 0 => 2 | 1 => 5 | 2 => 3 | 3 => 1 | 4 => 4
               | 5 => 7 | 6 => 0 | 7 => 6 | 8 => 8 | _ => k
               end)%nat.
  split.
  - intros x y Hxy.
    do 9 (destruct x as [|x]; [do 9 (destruct y as [|y]; [lia|]); lia|]).
    do 9 (destruct y as [|y]; [lia|]). done.
  - intros k. do 9 (destruct k as [|k]; [done|]). done.
Qed.

Lemma boardInvariant_step (s : State) (a : Action) :
  onBoard a = true → boardInvariant s → boardInvariant (step s a).1.
Proof.
  intros Hon [Hperm Hsel]. destruct a as [index| |u]; simpl.
  - apply bool_decide_eq_true in Hon.
    destruct (click_cases s index)
      as [(sel & Hnw & Hs & Hne & Hadj)|(sq & Heq & Hsq)].
    + rewrite (click_swaps _ sel) by done. simpl. split; [|done].
      pose proof (Permutation_length Hperm) as Hlen. simpl in Hlen.
      etrans; [apply swapCells_Permutation|exact Hperm]; [rewrite Hlen..|done].
      * by apply Hsel.
      * done.
    + rewrite Heq. simpl. split; [done|]. intros sel' Hsel'. simpl in Hsel'.
      destruct Hsq as [->|[->| ->]]; [by apply Hsel|simplify_eq; lia|done].
  - apply boardInvariant_initial.
  - done.
Qed.

(** C9.  After any sequence of clicks on the board, resets and changes of
    user, from the state of session start, the grid is a permutation of the
    values 1 to 9. *)
Theorem grid_is_permutation (u : option Session) (l : list Action) :
  forallb onBoard l = true →
  grid (run (initialState u) l).1 ≡ₚ Num <$> [1; 2; 3; 4; 5; 6; 7; 8; 9].
Proof.
  intros Hl.
  cut (boardInvariant (run (initialState u) l).1); [by intros [? _]|].
  generalize (boardInvariant_initial u). generalize (initialState u).
  induction l as [|a l IH]; intros s Hs; [done|].
  simpl in Hl. apply andb_true_iff in Hl as [Ha Hl].
  cbn [run]. pose proof (boardInvariant_step s a Ha Hs) as Hs'.
  destruct (step s a) as [s1 out1]. specialize (IH Hl s1 Hs').
  by destruct (run s1 l).
Qed.

Lemma grid_is_permutation_witness :
  grid (run (initialState None)
          [Click 0%nat; Click 1%nat; Click 4%nat; Reset; Click 8%nat; Click 5%nat]).1
  ≡ₚ Num <$> [1; 2; 3; 4; 5; 6; 7; 8; 9].
Proof.
  apply (grid_is_permutation None
           [Click 0%nat; Click 1%nat; Click 4%nat; Reset; Click 8%nat; Click 5%nat]).
  reflexivity.
Defined.

(** ** The move counter *)

(** C10.  A click leaves the move counter as it is or adds exactly one to
    it, and it adds one exactly when it swaps (the game is not won and the
    clicked cell is adjacent to a different, selected cell); so the counter
    never decreases along clicks, nor when the user changes, and only
    [resetGame] puts it back to 0. *)
Theorem moves_only_grow (s : State) (index : nat) (l : list nat)
    (u : option Session) :
  let s' := (handleSquareClick s index).1 in
  (moves s' = moves s ∨ moves s' = moves s + 1)
  ∧ (moves s' = moves s + 1 ↔
       gameWon s = false
       ∧ ∃ sel, selectedSquare s = Some sel ∧ sel ≠ index
                ∧ isAdjacent sel index = true)
  ∧ moves s ≤ moves (run s (Click <$> l)).1
  ∧ moves (step s (SetCurrentUser u)).1 = moves s
  ∧ moves (resetGame s) = 0.
Proof.
  assert (Hone : ∀ (t : State) (i : nat),
            (moves (handleSquareClick t i).1 = moves t
             ∧ ¬ (gameWon t = false
                  ∧ ∃ sel, selectedSquare t = Some sel ∧ sel ≠ i
                           ∧ isAdjacent sel i = true))
            ∨ (moves (handleSquareClick t i).1 = moves t + 1
               ∧ gameWon t = false
               ∧ ∃ sel, selectedSquare t = Some sel ∧ sel ≠ i
                        ∧ isAdjacent sel i = true)).
  { intros t i. unfold handleSquareClick.
    destruct (gameWon t) eqn:Hw; [left; split; [done|by intros [? _]]|].
    destruct (selectedSquare t) as [sel|] eqn:Hs; simpl;
      [|left; split; [done|by intros (_ & ? & ? & _)]].
    case_decide as Heq;
      [left; split; [done|intros (_ & ? & ? & ? & _); simplify_eq]|].
    destruct (isAdjacent sel i) eqn:Hadj.
    + right. split; [by case_bool_decide|]. eauto.
    + left. split; [done|]. intros (_ & ? & ? & _ & ?). simplify_eq. congruence. }
  simpl. split_and!; try done.
  - destruct (Hone s index) as [[? _]|[? _]]; auto.
  - destruct (Hone s index) as [[Heq Hno]|[Heq Hyes]]; split; try done.
    intros H. rewrite Heq in H. lia.
  - revert s. induction l as [|i l IH]; intros s; [done|].
    rewrite fmap_cons. cbn [run step].
    specialize (IH (handleSquareClick s i).1).
    destruct (Hone s i) as [[Heq _]|[Heq _]];
      destruct (handleSquareClick s i) as [s1 out1]; simpl in *;
      destruct (run s1 (Click <$> l)); simpl in *; lia.
Qed.

Lemma moves_only_grow_witness :
  let s := mkState None initialGrid 0 (Some 0%nat) false in
  let s' := (handleSquareClick s 1).1 in
  (moves s' = moves s ∨ moves s' = moves s + 1)
  ∧ (moves s' = moves s + 1 ↔
       gameWon s = false
       ∧ ∃ sel, selectedSquare s = Some sel ∧ sel ≠ 1%nat
                ∧ isAdjacent sel 1 = true)
  ∧ moves s ≤ moves (run s (Click <$> [1; 4; 5]%nat)).1
  ∧ moves (step s (SetCurrentUser None)).1 = moves s
  ∧ moves (resetGame s) = 0.
Proof.
  exact (moves_only_grow (mkState None initialGrid 0 (Some 0%nat) false)
           1%nat [1; 4; 5]%nat None).
Defined.

End PuzzleClaims.

(* ===================================================================== *)
(** * Part IV: properties of the score ledger                             *)
(* ===================================================================== *)

Section LedgerClaims.
Import Server.

Lemma accepted_moves (m : Qc) :
  (1 ≤ m)%Qc → bool_decide (m = 0%Qc) || bool_decide (m < 1)%Qc = false.
Proof.
  intros Hm. apply orb_false_iff. split; apply bool_decide_eq_false.
  - intros ->. by apply Qcle_ngt in Hm.
  - by apply Qcle_ngt.
Qed.

Lemma validateScore_accepted (uid : nat) (m : Qc) (now : Z) (cfg : list Z) :
  (1 ≤ m)%Qc → validateScore (mkScore uid m now cfg) = true.
Proof. intros Hm. by apply bool_decide_eq_true. Qed.

(** C1.  A submission of [moves >= 1] by an existing player: with no record
    of the player, a record with these moves and the current time is added
    and [{moves, completedAt, improved: true}] is returned; with a record and
    strictly fewer moves, that record gets the new moves and the current time
    and the same is returned; with a record and at least as many moves, the
    collection is unchanged and the stored [{moves, completedAt}] are returned
    with [improved: false]. *)
Theorem postScores_update_if_better (users : gmap nat User) (scores : list Score)
    (now : Z) (uid : nat) (m : Qc) (u : User) :
  (1 ≤ m)%Qc → users !! uid = Some u →
  (Forall (λ sc, userId sc ≠ uid) scores →
     postScores users scores now uid (Some m)
     = (Json 201 (mkScoreBody "Score submitted successfully!"
                    (mkScoreResult m now true)),
        scores ++ [mkScore uid m now defaultGameConfiguration]))
  ∧ (∀ i existing,
       findOne uid scores = Some (i, existing) → (m < moves existing)%Qc →
       postScores users scores now uid (Some m)
       = (Json 200 (mkScoreBody "New best score updated!"
                      (mkScoreResult m now true)),
          <[i:=mkScore uid m now (gameConfiguration existing)]> scores))
  ∧ (∀ i existing,
       findOne uid scores = Some (i, existing) → (moves existing ≤ m)%Qc →
       postScores users scores now uid (Some m)
       = (Json 200 (mkScoreBody "Score submitted, but not your best"
                      (mkScoreResult (moves existing) (completedAt existing)
                                     false)),
          scores)).
Proof.
  intros Hm Hu. unfold postScores.
  rewrite accepted_moves, Hu by done. split_and!.
  - intros Hnone.
    assert (findOne uid scores = None) as ->.
    { apply list_find_None. by eapply Forall_impl. }
    by rewrite validateScore_accepted.
  - intros i existing Hfind Hlt. rewrite Hfind.
    rewrite bool_decide_eq_true_2 by done.
    rewrite validateScore_accepted by done. simpl.
    apply list_find_Some in Hfind as (_ & <- & _). done.
  - intros i existing Hfind Hle. rewrite Hfind.
    rewrite bool_decide_eq_false_2; [done|]. by apply Qcle_ngt.
Qed.

Lemma postScores_update_if_better_witness :
  let users : gmap nat User := {[ 7%nat := mkUser "Asha" "cs22b1001@iiitdm.ac.in" 0 ]} in
  let scores := [mkScore 7 (Qc_of_Z 10) 100 defaultGameConfiguration] in
  (Forall (λ sc, userId sc ≠ 7%nat) scores →
     postScores users scores 200 7 (Some (Qc_of_Z 5))
     = (Json 201 (mkScoreBody "Score submitted successfully!"
                    (mkScoreResult (Qc_of_Z 5) 200 true)),
        scores ++ [mkScore 7 (Qc_of_Z 5) 200 defaultGameConfiguration]))
  ∧ (∀ i existing,
       findOne 7 scores = Some (i, existing) → (Qc_of_Z 5 < moves existing)%Qc →
       postScores users scores 200 7 (Some (Qc_of_Z 5))
       = (Json 200 (mkScoreBody "New best score updated!"
                      (mkScoreResult (Qc_of_Z 5) 200 true)),
          <[i:=mkScore 7 (Qc_of_Z 5) 200 (gameConfiguration existing)]> scores))
  ∧ (∀ i existing,
       findOne 7 scores = Some (i, existing) → (moves existing ≤ Qc_of_Z 5)%Qc →
       postScores users scores 200 7 (Some (Qc_of_Z 5))
       = (Json 200 (mkScoreBody "Score submitted, but not your best"
                      (mkScoreResult (moves existing) (completedAt existing)
                                     false)),
          scores)).
Proof.
  apply (postScores_update_if_better
           {[ 7%nat := mkUser "Asha" "cs22b1001@iiitdm.ac.in" 0 ]}
           [mkScore 7 (Qc_of_Z 10) 100 defaultGameConfiguration]
           200 7 (Qc_of_Z 5) (mkUser "Asha" "cs22b1001@iiitdm.ac.in" 0)).
  - vm_compute. discriminate.
  - reflexivity.
Defined.

(** The two test cases of the specification: 10 then 15 keeps 10, 10 then 5
    stores 5. *)
Example submit_10_then_15 :
  let users : gmap nat User := {[ 7%nat := mkUser "Asha" "cs22b1001@iiitdm.ac.in" 0 ]} in
  let s1 := (postScores users [] 100 7 (Some (Qc_of_Z 10))).2 in
  let r := postScores users s1 200 7 (Some (Qc_of_Z 15)) in
  moves <$> r.2 = [Qc_of_Z 10]
  ∧ r.1 = Json 200 (mkScoreBody "Score submitted, but not your best"
                      (mkScoreResult (Qc_of_Z 10) 100 false)).
Proof. by vm_compute. Qed.

Example submit_10_then_5 :
  let users : gmap nat User := {[ 7%nat := mkUser "Asha" "cs22b1001@iiitdm.ac.in" 0 ]} in
  let s1 := (postScores users [] 100 7 (Some (Qc_of_Z 10))).2 in
  let r := postScores users s1 200 7 (Some (Qc_of_Z 5)) in
  moves <$> r.2 = [Qc_of_Z 5]
  ∧ r.1 = Json 200 (mkScoreBody "New best score updated!"
                      (mkScoreResult (Qc_of_Z 5) 200 true)).
Proof. by vm_compute. Qed.

(** ** What gets stored *)

(** A request leaves the collection alone, replaces one record, or adds one;
    a record it writes carries the submitted moves, which are at least 1. *)
Lemma postScores_writes (users : gmap nat User) (scores : list Score)
    (now : Z) (uid : nat) (bodyMoves : option Qc) :
  let scores' := (postScores users scores now uid bodyMoves).2 in
  scores' = scores
  ∨ ∃ m sc, bodyMoves = Some m ∧ (1 ≤ m)%Qc ∧ moves sc = m ∧ userId sc = uid
            ∧ ((findOne uid scores = None ∧ scores' = scores ++ [sc])
               ∨ (∃ i old, findOne uid scores = Some (i, old)
                           ∧ scores' = <[i:=sc]> scores)).
Proof.
  unfold postScores. destruct bodyMoves as [m|]; [|by left].
  destruct (bool_decide (m = 0%Qc) || bool_decide (m < 1)%Qc) eqn:Hv; [by left|].
  apply orb_false_iff in Hv as [_ Hv]. apply bool_decide_eq_false in Hv.
  apply Qcle_ngt in Hv.
  destruct (users !! uid); [|by left].
  destruct (findOne uid scores) as [[i existing]|] eqn:Hfind.
  - case_bool_decide; [|by left].
    rewrite validateScore_accepted by done. simpl. right.
    apply list_find_Some in Hfind as Hex. destruct Hex as (_ & Huid & _).
    exists m, (mkScore (userId existing) m now (gameConfiguration existing)).
    split_and!; [done..|]. right. eauto.
  - rewrite validateScore_accepted by done. simpl. right.
    exists m, (mkScore uid m now defaultGameConfiguration).
    split_and!; [done..|]. left. done.
Qed.

Lemma postScores_keeps_min (users : gmap nat User) (scores : list Score)
    (now : Z) (uid : nat) (bodyMoves : option Qc) :
  Forall (λ sc, (1 ≤ moves sc)%Qc) scores →
  Forall (λ sc, (1 ≤ moves sc)%Qc) (postScores users scores now uid bodyMoves).2.
Proof.
  intros Hall.
  destruct (postScores_writes users scores now uid bodyMoves)
    as [->|(m & sc & _ & Hm & Hsc & _ & [[_ ->]|(i & old & _ & ->)])]; [done|..].
  - apply Forall_app. split; [done|]. apply Forall_singleton. by rewrite Hsc.
  - apply Forall_insert; [done|]. by rewrite Hsc.
Qed.

(** C6 (as amended).  Every record ever stored has moves that are a number
    at least 1: a request with no [moves] or with [moves < 1] is answered 400
    and leaves the collection as it is, and any record a request writes
    carries the submitted number, which is at least 1.  Nothing makes that
    number an integer. *)
Theorem stored_moves_at_least_one (l : list Submission)
    (users : gmap nat User) (scores : list Score) (now : Z) (uid : nat) (m : Qc) :
  Forall (λ sc, (1 ≤ moves sc)%Qc) (submitAll [] l)
  ∧ ((m < 1)%Qc →
       postScores users scores now uid (Some m)
       = (Error 400 "Valid moves count is required", scores))
  ∧ postScores users scores now uid None
    = (Error 400 "Valid moves count is required", scores)
  ∧ (∀ sc, sc ∈ (postScores users scores now uid (Some m)).2 →
           sc ∈ scores ∨ (moves sc = m ∧ (1 ≤ m)%Qc)).
Proof.
  split_and!.
  - cut (∀ scores0, Forall (λ sc, (1 ≤ moves sc)%Qc) scores0 →
                    Forall (λ sc, (1 ≤ moves sc)%Qc) (submitAll scores0 l)).
    { intros H. by apply H. }
    induction l as [|r l IH]; intros scores0 H0; [done|].
    simpl. apply IH. by apply postScores_keeps_min.
  - intros Hlt. unfold postScores.
    rewrite (bool_decide_eq_true_2 (m < 1)%Qc) by done.
    by rewrite orb_true_r.
  - done.
  - intros sc Hin.
    destruct (postScores_writes users scores now uid (Some m))
      as [Heq|(m' & sc' & [= <-] & Hm & Hsc & _ & [[_ Heq]|(i & old & _ & Heq)])];
      rewrite Heq in Hin.
    + by left.
    + apply elem_of_app in Hin as [?|Hin%list_elem_of_singleton]; [by left|].
      right. by subst.
    + apply list_elem_of_lookup in Hin as [k Hk].
      apply list_lookup_insert_Some in Hk as [(_ & <- & _)|[_ Hk]].
      * by right.
      * left. by eapply list_elem_of_lookup_2.
Qed.

Lemma stored_moves_at_least_one_witness :
  let users : gmap nat User := {[ 7%nat := mkUser "Asha" "cs22b1001@iiitdm.ac.in" 0 ]} in
  let l := [mkSubmission users 100 7 (Some (Qc_of_Z 12));
            mkSubmission users 150 7 (Some 0%Qc);
            mkSubmission users 200 7 (Some (Qc_of_Z 9))] in
  Forall (λ sc, (1 ≤ moves sc)%Qc) (submitAll [] l)
  ∧ ((0 < 1)%Qc →
       postScores users [] 100 7 (Some 0%Qc)
       = (Error 400 "Valid moves count is required", []))
  ∧ postScores users [] 100 7 None
    = (Error 400 "Valid moves count is required", [])
  ∧ (∀ sc, sc ∈ (postScores users [] 100 7 (Some 0%Qc)).2 →
           sc ∈ [] ∨ (moves sc = 0%Qc ∧ (1 ≤ 0)%Qc)).
Proof.
  apply (stored_moves_at_least_one
           [mkSubmission {[ 7%nat := mkUser "Asha" "cs22b1001@iiitdm.ac.in" 0 ]}
                         100 7 (Some (Qc_of_Z 12));
            mkSubmission {[ 7%nat := mkUser "Asha" "cs22b1001@iiitdm.ac.in" 0 ]}
                         150 7 (Some 0%Qc);
            mkSubmission {[ 7%nat := mkUser "Asha" "cs22b1001@iiitdm.ac.in" 0 ]}
                         200 7 (Some (Qc_of_Z 9))]
           {[ 7%nat := mkUser "Asha" "cs22b1001@iiitdm.ac.in" 0 ]} [] 100 7 0%Qc).
Defined.

(** C6 as stated fails: the moves 3/2 pass the check and are stored, and
    3/2 is not an integer. *)
Lemma fractional_moves_are_stored :
  ¬ (∀ (l : list Submission),
       Forall (λ sc, ∃ z : Z, moves sc = Qc_of_Z z ∧ 1 ≤ z) (submitAll [] l)).
Proof.
  intros H.
  specialize (H [mkSubmission {[ 7%nat := mkUser "Asha" "cs22b1001@iiitdm.ac.in" 0 ]}
                              100 7 (Some (Q2Qc (3 # 2)))]).
  apply Forall_cons_1 in H as [(z & Hz & _) _].
  apply (f_equal this) in Hz. vm_compute in Hz. discriminate Hz.
Qed.

(** ** One record per player, each of a registered user

    The two facts about the collection that the results on the leaderboard
    assume are maintained by [POST /api/scores], the only writer. *)

Lemma postScores_one_per_player (users : gmap nat User) (scores : list Score)
    (now : Z) (uid : nat) (bodyMoves : option Qc) :
  NoDup (userId <$> scores) →
  NoDup (userId <$> (postScores users scores now uid bodyMoves).2).
Proof.
  intros Hnd.
  destruct (postScores_writes users scores now uid bodyMoves)
    as [->|(m & sc & _ & _ & _ & Huid
            & [[Hnone ->]|(i & old & Hfind & ->)])]; [done|..].
  - rewrite fmap_app. apply NoDup_app. split_and!; [done| |apply NoDup_singleton].
    intros x Hx [= ->]%list_elem_of_singleton.
    apply list_elem_of_fmap in Hx as (sc' & Hsc' & Hin).
    apply list_find_None in Hnone. rewrite Forall_forall in Hnone.
    apply (Hnone sc' Hin). congruence.
  - apply list_find_Some in Hfind as (Hi & Hold & _).
    rewrite list_fmap_insert. rewrite list_insert_id; [done|].
    rewrite list_lookup_fmap, Hi. simpl. congruence.
Qed.

Lemma postScores_registered (users : gmap nat User) (scores : list Score)
    (now : Z) (uid : nat) (bodyMoves : option Qc) :
  Forall (λ sc, is_Some (users !! userId sc)) scores →
  Forall (λ sc, is_Some (users !! userId sc))
         (postScores users scores now uid bodyMoves).2.
Proof.
  intros Hall. unfold postScores.
  destruct bodyMoves as [m|]; [|done].
  destruct (bool_decide (m = 0%Qc) || bool_decide (m < 1)%Qc); [done|].
  destruct (users !! uid) as [u|] eqn:Hu; [|done].
  destruct (findOne uid scores) as [[i existing]|] eqn:Hfind.
  - case_bool_decide; [|done]. destruct (validateScore _); [|done]. simpl.
    apply list_find_Some in Hfind as (_ & Huid & _).
    apply Forall_insert; [done|]. simpl. rewrite Huid, Hu. eauto.
  - destruct (validateScore _); [|done]. simpl.
    apply Forall_app. split; [done|]. apply Forall_singleton. simpl.
    rewrite Hu. eauto.
Qed.

Lemma submitAll_one_per_player (l : list Submission) :
  NoDup (userId <$> submitAll [] l).
Proof.
  cut (∀ scores, NoDup (userId <$> scores) →
                 NoDup (userId <$> submitAll scores l)).
  { intros H. apply H. constructor. }
  induction l as [|r l IH]; intros scores Hnd; [done|].
  simpl. apply IH. by apply postScores_one_per_player.
Qed.

End LedgerClaims.

(* ===================================================================== *)
(** * Part V: properties of the leaderboard                               *)
(* ===================================================================== *)

Section LeaderboardProperties.
Import Server.

(** ** The order of the [$sort] stage *)

#[local] Instance sortOrder_total : Total sortOrder.
Proof.
  intros x y. unfold sortOrder.
  destruct (Qclt_le_dec (moves x.1) (moves y.1)) as [?|Hle]; [by left; left|].
  apply Qcle_lt_or_eq in Hle as [?|Heq]; [by right; left|].
  destruct (Z.le_ge_cases (completedAt x.1) (completedAt y.1)).
  - left. right. done.
  - right. right. split; [done|lia].
Qed.

#[local] Instance sortOrder_trans : Transitive sortOrder.
Proof.
  intros x y z [Hxy|[Hxy Hxy']] [Hyz|[Hyz Hyz']]; unfold sortOrder.
  - left. by eapply Qclt_trans.
  - left. by rewrite <- Hyz.
  - left. by rewrite Hxy.
  - right. split; [congruence|lia].
Qed.

Lemma better_sortOrder (x y : Score * User) :
  better y.1 x.1 ↔ sortOrder x y ∧ ¬ sortOrder y x.
Proof.
  unfold better, sortOrder. split.
  - intros [Hlt|[Heq Hlt]].
    + split; [by left|]. intros [Hgt|[Heq _]].
      * by eapply Qclt_not_le; [exact Hlt|apply Qclt_le_weak].
      * rewrite Heq in Hlt. by eapply Qclt_not_eq.
    + split; [right; split; [done|lia]|]. intros [Hgt|[_ Hle]]; [|lia].
      rewrite Heq in Hgt. by eapply Qclt_not_eq.
  - intros [[Hlt|[Heq Hle]] Hn]; [by left|]. right. split; [done|].
    destruct (decide (completedAt x.1 < completedAt y.1)); [done|].
    exfalso. apply Hn. right. split; [done|lia].
Qed.

Lemma globalOrdering_sorted (users : gmap nat User) (scores : list Score) :
  StronglySorted sortOrder (globalOrdering users scores).
Proof. apply StronglySorted_merge_sort; apply _. Qed.

Lemma lookupUnwind_all (users : gmap nat User) (scores : list Score) :
  (∀ sc, sc ∈ scores → is_Some (users !! userId sc)) →
  (lookupUnwind users scores).*1 = scores.
Proof.
  unfold lookupUnwind. induction scores as [|sc scores IH]; intros Hall; [done|].
  destruct (Hall sc) as [u Hu]; [by left|]. simpl. rewrite Hu. simpl.
  f_equal. apply IH. intros sc' Hin. apply Hall. by right.
Qed.

Lemma globalOrdering_all (users : gmap nat User) (scores : list Score) :
  (∀ sc, sc ∈ scores → is_Some (users !! userId sc)) →
  (globalOrdering users scores).*1 ≡ₚ scores.
Proof.
  intros Hall. unfold globalOrdering, sortStage.
  rewrite merge_sort_Permutation. by rewrite lookupUnwind_all.
Qed.

(** ** The window *)

Lemma aggregate_Some (users : gmap nat User) (scores : list Score)
    (skip limit : Z) (docs : list (Score * User)) :
  aggregate users scores skip limit = Some docs ↔
    0 ≤ skip ∧ 0 < limit
    ∧ docs = take (Z.to_nat limit)
               (drop (Z.to_nat skip) (globalOrdering users scores)).
Proof.
  unfold aggregate.
  destruct (bool_decide (skip < 0) || bool_decide (limit ≤ 0)) eqn:Hb.
  - apply orb_true_iff in Hb as [Hb|Hb]; apply bool_decide_eq_true in Hb;
      (split; [done|intros (? & ? & _); lia]).
  - apply orb_false_iff in Hb as [Hs Hl].
    apply bool_decide_eq_false in Hs, Hl.
    split; [intros [= <-]; split_and!; [lia..|done]|by intros (_ & _ & ->)].
Qed.

(** The handler answers 200 exactly when the parsed [limit] and [page] are
    both positive, and its answer is then the ranked window. *)
Lemma getLeaderboard_200 (users : gmap nat User) (scores : list Score)
    (queryLimit queryPage : option string) (body : LeaderboardBody) :
  let limit := parseIntOr queryLimit 50 in
  let page := parseIntOr queryPage 1 in
  let skip := (page - 1) * limit in
  let total := Z.of_nat (length scores) in
  getLeaderboard users scores queryLimit queryPage = Json 200 body ↔
    0 < limit ∧ 0 < page
    ∧ body = mkLeaderboardBody
               (imap (rankEntry skip)
                  (take (Z.to_nat limit)
                     (drop (Z.to_nat skip) (globalOrdering users scores))))
               (mkPagination page (ceilDiv total limit) total
                  (bool_decide (page * limit < total))
                  (bool_decide (page > 1))).
Proof.
  intros limit page skip total. unfold getLeaderboard.
  fold limit page. fold skip.
  destruct (aggregate users scores skip limit) as [docs|] eqn:Hagg.
  - apply aggregate_Some in Hagg as (Hskip & Hlimit & ->).
    split.
    + intros [= <-]. split_and!; [done| |done]. unfold skip in Hskip. nia.
    + by intros (_ & _ & ->).
  - split; [done|]. intros (Hlimit & Hpage & _).
    assert (aggregate users scores skip limit
            = Some (take (Z.to_nat limit)
                      (drop (Z.to_nat skip) (globalOrdering users scores))))
      as Hsome; [|congruence].
    apply aggregate_Some. split_and!; [unfold skip; nia|done..].
Qed.

Lemma window_lookup {A} (G : list A) (skip limit : Z) (i : nat) (x : A) :
  0 ≤ skip →
  take (Z.to_nat limit) (drop (Z.to_nat skip) G) !! i = Some x ↔
    Z.of_nat i < limit ∧ G !! Z.to_nat (skip + Z.of_nat i) = Some x.
Proof.
  intros Hskip. rewrite lookup_take_Some, lookup_drop.
  replace (Z.to_nat (skip + Z.of_nat i)) with (Z.to_nat skip + i)%nat by lia.
  split; intros [? ?]; (split; [done || lia..]).
Qed.

Lemma sorted_positions {A} (R : relation A) (l : list A) (a b : nat) (x y : A) :
  StronglySorted R l → l !! a = Some x → l !! b = Some y → (a < b)%nat → R x y.
Proof.
  intros Hl. revert a b. induction Hl as [|z l Hl IH Hz]; intros a b Ha Hb Hab.
  - done.
  - destruct b as [|b]; [lia|]. simpl in Hb. destruct a as [|a].
    + simplify_eq/=. rewrite Forall_forall in Hz.
      apply Hz. by eapply list_elem_of_lookup_2.
    + simpl in Ha. apply (IH a b); [done..|lia].
Qed.

(** ** Counting the better records *)

Lemma filter_keeps_all {A} (P : A → Prop) `{!∀ x, Decision (P x)} (l : list A) :
  Forall P l → filter P l = l.
Proof.
  induction 1 as [|x l Hx Hl IH]; [done|].
  rewrite filter_cons_True by done. by rewrite IH.
Qed.

Lemma filter_keeps_none {A} (P : A → Prop) `{!∀ x, Decision (P x)} (l : list A) :
  Forall (λ x, ¬ P x) l → filter P l = [].
Proof.
  induction 1 as [|x l Hx Hl IH]; [done|].
  by rewrite filter_cons_False.
Qed.

Lemma not_better_self (sc : Score) : ¬ better sc sc.
Proof.
  intros [Hlt|[_ Hlt]]; [|lia]. by eapply Qclt_not_eq.
Qed.

(** In a sorted list, the documents strictly better than the one at position
    [k] are the [k] documents before it, as long as no other document has
    both its moves and its time. *)
Lemma count_better_position (G : list (Score * User)) (k : nat)
    (doc : Score * User) :
  StronglySorted sortOrder G → G !! k = Some doc →
  (∀ k' doc', G !! k' = Some doc' → k' ≠ k →
     ¬ (moves doc'.1 = moves doc.1 ∧ completedAt doc'.1 = completedAt doc.1)) →
  length (filter (better doc.1) G.*1) = k.
Proof.
  intros Hsorted Hk Hties.
  assert (Hnottie : ∀ doc', ¬ (moves doc'.1 = moves doc.1
                               ∧ completedAt doc'.1 = completedAt doc.1) →
            sortOrder doc' doc → better doc.1 doc'.1).
  { intros doc' Hn [Hlt|[Heq Hle]]; [by left|]. right. split; [done|].
    destruct (decide (completedAt doc'.1 = completedAt doc.1)); [|lia].
    by destruct Hn. }
  assert (Hbefore : Forall (better doc.1) (take k G).*1).
  { apply Forall_fmap, Forall_lookup. intros a x Hx. simpl.
    apply lookup_take_Some in Hx as [Hx Ha].
    apply Hnottie; [apply (Hties a); [done|lia]|].
    by apply (sorted_positions sortOrder G a k). }
  assert (Hafter : Forall (λ sc, ¬ better doc.1 sc) (drop (S k) G).*1).
  { apply Forall_fmap, Forall_lookup. intros b x Hx. simpl.
    rewrite lookup_drop in Hx.
    intros Hb. apply (better_sortOrder x doc) in Hb as [_ Hb]. apply Hb.
    apply (sorted_positions sortOrder G k (S k + b)); [done..|lia]. }
  rewrite <- (take_drop_middle G k doc Hk) at 1.
  rewrite fmap_app, fmap_cons, filter_app, filter_cons_False
    by apply not_better_self.
  rewrite filter_keeps_all, filter_keeps_none by done.
  rewrite app_nil_r, length_fmap, length_take_le; [done|].
  apply lookup_lt_Some in Hk. lia.
Qed.

(** With one record per player, [findOne] finds the record of the player. *)
Lemma findOne_unique (scores : list Score) (sc : Score) :
  NoDup (userId <$> scores) → sc ∈ scores →
  ∃ i, findOne (userId sc) scores = Some (i, sc).
Proof.
  intros Hnd Hin.
  destruct (list_find_elem_of (λ sc', userId sc' = userId sc) scores sc)
    as [[i sc'] Hfind]; [done..|].
  exists i. unfold findOne. rewrite Hfind. do 2 f_equal.
  apply list_find_Some in Hfind as (Hi & Huid & _).
  apply list_elem_of_lookup in Hin as [j Hj].
  assert (i = j) as ->; [|congruence].
  apply (NoDup_lookup (userId <$> scores) i j (userId sc)); [done|..];
    rewrite list_lookup_fmap.
  - by rewrite Hi; simpl; rewrite Huid.
  - by rewrite Hj.
Qed.

(** ** Any output of the sort stage *)

(** The merge sort of the model gives one of the possible outputs, and
    [getLeaderboard] is the handler for that output. *)
Lemma globalOrdering_sortedBy (users : gmap nat User) (scores : list Score) :
  Pipeline.sortedBy (lookupUnwind users scores) (globalOrdering users scores).
Proof.
  split; [apply merge_sort_Permutation|apply globalOrdering_sorted].
Qed.

Lemma getLeaderboard_of_globalOrdering (users : gmap nat User)
    (scores : list Score) (queryLimit queryPage : option string) :
  getLeaderboard users scores queryLimit queryPage
  = Pipeline.getLeaderboardOf (globalOrdering users scores)
      (Z.of_nat (length scores)) queryLimit queryPage.
Proof. reflexivity. Qed.

Lemma sortedBy_all (users : gmap nat User) (scores : list Score)
    (sorted : list (Score * User)) :
  Forall (λ sc, is_Some (users !! userId sc)) scores →
  Pipeline.sortedBy (lookupUnwind users scores) sorted →
  sorted.*1 ≡ₚ scores.
Proof.
  intros Hall [Hperm _]. rewrite Hperm.
  rewrite lookupUnwind_all; [done|]. by apply Forall_forall.
Qed.

(** The handler answers 200 exactly when the parsed [limit] and [page] are
    both positive, whatever the sort stage gave. *)
Lemma getLeaderboardOf_200 (sorted : list (Score * User)) (total : Z)
    (queryLimit queryPage : option string) (body : LeaderboardBody) :
  let limit := parseIntOr queryLimit 50 in
  let page := parseIntOr queryPage 1 in
  let skip := (page - 1) * limit in
  Pipeline.getLeaderboardOf sorted total queryLimit queryPage = Json 200 body ↔
    0 < limit ∧ 0 < page
    ∧ body = mkLeaderboardBody
               (imap (rankEntry skip)
                  (take (Z.to_nat limit) (drop (Z.to_nat skip) sorted)))
               (mkPagination page (ceilDiv total limit) total
                  (bool_decide (page * limit < total))
                  (bool_decide (page > 1))).
Proof.
  intros limit page skip. unfold Pipeline.getLeaderboardOf, Pipeline.aggregateOf.
  fold limit page. fold skip.
  destruct (bool_decide (skip < 0) || bool_decide (limit ≤ 0)) eqn:Hb.
  - split; [done|]. intros (Hlimit & Hpage & _).
    apply orb_true_iff in Hb as [Hb|Hb]; apply bool_decide_eq_true in Hb;
      unfold skip in *; nia.
  - apply orb_false_iff in Hb as [Hs Hl].
    apply bool_decide_eq_false in Hs, Hl.
    split; [|by intros (_ & _ & ->)].
    intros [= <-]. split_and!; [lia| |done]. unfold skip in Hs. nia.
Qed.

(** In a sorted list, every document strictly better than the one at
    position [k] stands before it. *)
Lemma count_better_at_most (G : list (Score * User)) (k : nat)
    (doc : Score * User) :
  StronglySorted sortOrder G → G !! k = Some doc →
  (length (filter (better doc.1) G.*1) ≤ k)%nat.
Proof.
  intros Hsorted Hk.
  assert (Hafter : Forall (λ sc, ¬ better doc.1 sc) (drop (S k) G).*1).
  { apply Forall_fmap, Forall_lookup. intros b x Hx. simpl.
    rewrite lookup_drop in Hx.
    intros Hb. apply (better_sortOrder x doc) in Hb as [_ Hb]. apply Hb.
    apply (sorted_positions sortOrder G k (S k + b)); [done..|lia]. }
  rewrite <- (take_drop_middle G k doc Hk).
  rewrite fmap_app, fmap_cons, filter_app, filter_cons_False
    by apply not_better_self.
  rewrite (filter_keeps_none _ _ Hafter), app_nil_r.
  etrans; [apply length_filter|]. rewrite length_fmap, length_take. lia.
Qed.

Lemma filter_cover {A} (P Q : A → Prop) `{!∀ x, Decision (P x)}
    `{!∀ x, Decision (Q x)} (l : list A) :
  Forall (λ x, P x ∨ Q x) l →
  (length l ≤ length (filter P l) + length (filter Q l))%nat.
Proof.
  induction 1 as [|x l [Hx|Hx] Hl IH]; [done|..]; simpl.
  - rewrite (filter_cons_True P) by done. simpl.
    destruct (decide (Q x)).
    + rewrite (filter_cons_True Q) by done. simpl. lia.
    + rewrite (filter_cons_False Q) by done. lia.
  - rewrite (filter_cons_True Q) by done. simpl.
    destruct (decide (P x)).
    + rewrite (filter_cons_True P) by done. simpl. lia.
    + rewrite (filter_cons_False P) by done. lia.
Qed.

(** In a sorted list the document at position [k] stands after every
    strictly better one, and the documents up to it are strictly better or
    have both its moves and its time. *)
Lemma position_bounds (G : list (Score * User)) (k : nat) (doc : Score * User) :
  StronglySorted sortOrder G → G !! k = Some doc →
  (length (filter (better doc.1) G.*1) ≤ k
   < length (filter (better doc.1) G.*1)
     + length (Pipeline.tiedWith doc.1 G.*1))%nat.
Proof.
  intros Hsorted Hk. split; [by apply count_better_at_most|].
  unfold Pipeline.tiedWith.
  assert (Hupto : Forall (λ sc, better doc.1 sc
                                ∨ (moves sc = moves doc.1
                                   ∧ completedAt sc = completedAt doc.1))
                         (take (S k) G).*1).
  { apply Forall_fmap, Forall_lookup. intros a x Hx. simpl.
    apply lookup_take_Some in Hx as [Hx Ha].
    destruct (decide (a = k)) as [->|Hne].
    - right. by simplify_eq.
    - destruct (sorted_positions sortOrder G a k x doc) as [Hlt|[Heq Hle]];
        [done..|lia|by left; left|].
      destruct (decide (completedAt x.1 = completedAt doc.1)).
      + by right.
      + left. right. split; [done|lia]. }
  apply (filter_cover _ _) in Hupto.
  rewrite length_fmap, length_take_le in Hupto
    by (apply lookup_lt_Some in Hk; lia).
  rewrite <- (take_drop (S k) G) at 1 2.
  rewrite fmap_app, !filter_app, !length_app. lia.
Qed.

End LeaderboardProperties.

Section LeaderboardClaims.
Import Server.

(** C2 (as amended).  Take any output [sorted] of the [$sort] stage of the
    request, with every score belonging to a registered user and the parsed
    [limit] and [page] positive (the handler answers exactly then).  The
    ordering [sorted] holds every record of the collection once, by moves
    ascending and, for equal moves, by [completedAt] ascending.  The handler
    answers 200, and an entry is listed at index [i] of its page exactly
    when [i < limit] and the ordering has a document at position [skip + i]
    (counted from 0): the entry is then that document, with rank
    [skip + i + 1], its 1-based position in the ordering, whatever the page
    and the limit.  In every such ordering a record stands after all the
    strictly better records and among the records that have both its moves
    and its time: when no other record has both, its position, hence its
    rank, is one more than the number of strictly better records, the same
    for every request. *)
Theorem leaderboard_rank_is_global_position (users : gmap nat User)
    (scores : list Score) (sorted : list (Score * User))
    (queryLimit queryPage : option string) :
  let limit := parseIntOr queryLimit 50 in
  let page := parseIntOr queryPage 1 in
  let skip := (page - 1) * limit in
  Forall (λ sc, is_Some (users !! userId sc)) scores →
  Pipeline.sortedBy (lookupUnwind users scores) sorted →
  0 < limit → 0 < page →
  sorted.*1 ≡ₚ scores
  ∧ (∀ a b x y, (a < b)%nat → sorted !! a = Some x → sorted !! b = Some y →
       (moves x.1 < moves y.1)%Qc
       ∨ (moves x.1 = moves y.1 ∧ completedAt x.1 ≤ completedAt y.1))
  ∧ (∃ body,
       Pipeline.getLeaderboardOf sorted (Z.of_nat (length scores))
         queryLimit queryPage = Json 200 body
       ∧ ∀ i e, leaderboard body !! i = Some e ↔
           Z.of_nat i < limit
           ∧ ∃ doc, sorted !! Z.to_nat (skip + Z.of_nat i) = Some doc
                    ∧ e = mkEntry (skip + Z.of_nat i + 1)
                                  (name doc.2) (email doc.2)
                                  (moves doc.1) (completedAt doc.1))
  ∧ (∀ k doc, sorted !! k = Some doc →
       (length (filter (better doc.1) scores) ≤ k
        < length (filter (better doc.1) scores)
          + length (Pipeline.tiedWith doc.1 scores))%nat).
Proof.
  intros limit page skip Hall Hsorted Hlimit Hpage.
  assert (Hskip : 0 ≤ skip) by (unfold skip; nia).
  pose proof (sortedBy_all users scores sorted Hall Hsorted) as Hperm.
  destruct Hsorted as [_ Hsorted].
  split_and!.
  - done.
  - intros a b x y Hab Ha Hb.
    by apply (sorted_positions sortOrder sorted a b x y).
  - eexists. split; [by apply getLeaderboardOf_200|]. simpl.
    fold limit page. fold skip.
    intros i e. rewrite list_lookup_imap, fmap_Some. split.
    + intros (doc & Hdoc & ->).
      apply window_lookup in Hdoc as [Hi Hdoc]; [|done].
      split; [done|]. by exists doc.
    + intros (Hi & doc & Hdoc & ->). exists doc. split; [|done].
      by apply window_lookup.
  - intros k doc Hk. unfold Pipeline.tiedWith. rewrite <- Hperm.
    by apply position_bounds.
Qed.

(** An instance with two players tied on both keys, the sort stage giving
    the second before the first, and the second page of one entry. *)
Lemma leaderboard_rank_is_global_position_witness :
  let first := (mkScore 1 (Qc_of_Z 10) 1000 defaultGameConfiguration,
                mkUser "Alice Kumar" "cs22b1001@iiitdm.ac.in" 0) in
  let second := (mkScore 2 (Qc_of_Z 10) 1000 defaultGameConfiguration,
                 mkUser "Bob Sharma" "me21a2002@iiitdm.ac.in" 0) in
  let sorted := [second; first] in
  let limit := parseIntOr (Some "1") 50 in
  let page := parseIntOr (Some "2") 1 in
  let skip := (page - 1) * limit in
  sorted.*1 ≡ₚ tiedScores
  ∧ (∀ a b x y, (a < b)%nat → sorted !! a = Some x → sorted !! b = Some y →
       (moves x.1 < moves y.1)%Qc
       ∨ (moves x.1 = moves y.1 ∧ completedAt x.1 ≤ completedAt y.1))
  ∧ (∃ body,
       Pipeline.getLeaderboardOf sorted (Z.of_nat (length tiedScores))
         (Some "1") (Some "2") = Json 200 body
       ∧ ∀ i e, leaderboard body !! i = Some e ↔
           Z.of_nat i < limit
           ∧ ∃ doc, sorted !! Z.to_nat (skip + Z.of_nat i) = Some doc
                    ∧ e = mkEntry (skip + Z.of_nat i + 1)
                                  (name doc.2) (email doc.2)
                                  (moves doc.1) (completedAt doc.1))
  ∧ (∀ k doc, sorted !! k = Some doc →
       (length (filter (better doc.1) tiedScores) ≤ k
        < length (filter (better doc.1) tiedScores)
          + length (Pipeline.tiedWith doc.1 tiedScores))%nat).
Proof.
  apply (leaderboard_rank_is_global_position sampleUsers tiedScores
           [(mkScore 2 (Qc_of_Z 10) 1000 defaultGameConfiguration,
             mkUser "Bob Sharma" "me21a2002@iiitdm.ac.in" 0);
            (mkScore 1 (Qc_of_Z 10) 1000 defaultGameConfiguration,
             mkUser "Alice Kumar" "cs22b1001@iiitdm.ac.in" 0)]
           (Some "1") (Some "2")).
  - apply (bool_decide_unpack _). vm_compute. exact I.
  - split.
    + apply perm_swap.
    + apply (bool_decide_unpack _). vm_compute. exact I.
  - reflexivity.
  - reflexivity.
Defined.

(** C2 as stated fails where two records have the same moves and the same
    completion time.  The two keys do not order such records: the store
    does, and anew for each request.  With two players tied on both keys and
    pages of one entry, the sort stage may give the first player first for
    the request of page 1 and second for the request of page 2 (the second
    order is also the one that the merge sort of the model gives when the
    two records are stored in the other order): the first player is then
    listed on both pages, with rank 1 and with rank 2.  So the rank of this
    record is not one position whatever the page. *)
Lemma tied_records_have_no_global_position :
  ¬ (∀ (users : gmap nat User) (scores : list Score)
       (sorted sorted' : list (Score * User))
       (queryLimit queryPage queryLimit' queryPage' : option string)
       (body body' : LeaderboardBody) (e e' : Entry),
       Forall (λ sc, is_Some (users !! userId sc)) scores →
       NoDup (userId <$> scores) →
       Pipeline.sortedBy (lookupUnwind users scores) sorted →
       Pipeline.sortedBy (lookupUnwind users scores) sorted' →
       Pipeline.getLeaderboardOf sorted (Z.of_nat (length scores))
         queryLimit queryPage = Json 200 body →
       Pipeline.getLeaderboardOf sorted' (Z.of_nat (length scores))
         queryLimit' queryPage' = Json 200 body' →
       e ∈ leaderboard body → e' ∈ leaderboard body' →
       e_email e = e_email e' →
       rank e = rank e').
Proof.
  intros H.
  pose (first := (mkScore 1 (Qc_of_Z 10) 1000 defaultGameConfiguration,
                  mkUser "Alice Kumar" "cs22b1001@iiitdm.ac.in" 0)).
  pose (second := (mkScore 2 (Qc_of_Z 10) 1000 defaultGameConfiguration,
                   mkUser "Bob Sharma" "me21a2002@iiitdm.ac.in" 0)).
  pose (e := mkEntry 1 "Alice Kumar" "cs22b1001@iiitdm.ac.in" (Qc_of_Z 10) 1000).
  pose (e' := mkEntry 2 "Alice Kumar" "cs22b1001@iiitdm.ac.in" (Qc_of_Z 10) 1000).
  specialize (H sampleUsers tiedScores [first; second] [second; first]
                (Some "1") (Some "1") (Some "1") (Some "2")
                (mkLeaderboardBody [e] (mkPagination 1 2 2 true false))
                (mkLeaderboardBody [e'] (mkPagination 2 2 2 false true))
                e e').
  assert (Hrank : rank e = rank e'); [apply H|discriminate Hrank].
  - apply (bool_decide_unpack _). vm_compute. exact I.
  - apply (bool_decide_unpack _). vm_compute. exact I.
  - split; [done|]. apply (bool_decide_unpack _). vm_compute. exact I.
  - split; [apply perm_swap|]. apply (bool_decide_unpack _). vm_compute. exact I.
  - vm_compute. reflexivity.
  - vm_compute. reflexivity.
  - apply list_elem_of_singleton. reflexivity.
  - apply list_elem_of_singleton. reflexivity.
  - reflexivity.
Qed.

(** The merge sort of the model keeps records tied on both keys in the order
    of the collection: the same two records, stored in the other order, get
    the other ranks. *)
Example stored_order_decides_tied_ranks :
  let ranks (r : Response LeaderboardBody) :=
    match r with
    | Json _ body => (λ e, (rank e, e_name e)) <$> leaderboard body
    | Error _ _ => []
    end in
  ranks (getLeaderboard sampleUsers tiedScores None None)
  = [(1, "Alice Kumar"); (2, "Bob Sharma")]
  ∧ ranks (getLeaderboard sampleUsers (reverse tiedScores) None None)
    = [(1, "Bob Sharma"); (2, "Alice Kumar")].
Proof. by vm_compute. Qed.

(** The two test cases of the specification: the order of moves
    [20, 10, 10, 30] with a tie on 10, and page 2 of five records by two. *)
Example leaderboard_order :
  (λ e, (rank e, e_moves e, e_completedAt e)) <$>
    match getLeaderboard sampleUsers (take 4 sampleScores) None None with
    | Json _ body => leaderboard body
    | Error _ _ => []
    end
  = [(1, Qc_of_Z 10, 1500); (2, Qc_of_Z 10, 2000);
     (3, Qc_of_Z 20, 1000); (4, Qc_of_Z 30, 500)].
Proof. by vm_compute. Qed.

Example leaderboard_page_2_of_3 :
  match getLeaderboard sampleUsers sampleScores (Some "2") (Some "2") with
  | Json 200 body =>
      rank <$> leaderboard body = [3; 4]
      ∧ pagination body = mkPagination 2 3 5 true true
  | _ => False
  end.
Proof. by vm_compute. Qed.

(** ** The rank of a player *)

(** C5 (as amended).  With every score belonging to a registered user and
    one record per player: for an entry of the leaderboard, if no other
    record has both the moves and the completion time of its record, the
    rank that [GET /api/user/score] computes for the player of that record
    (one more than the number of strictly better records) is the rank of the
    entry. *)
Theorem user_rank_matches_leaderboard (users : gmap nat User)
    (scores : list Score) (queryLimit queryPage : option string)
    (body : LeaderboardBody) (i : nat) (e : Entry) (doc : Score * User) :
  Forall (λ sc, is_Some (users !! userId sc)) scores →
  NoDup (userId <$> scores) →
  getLeaderboard users scores queryLimit queryPage = Json 200 body →
  leaderboard body !! i = Some e →
  globalOrdering users scores !! Z.to_nat (rank e - 1) = Some doc →
  Forall (λ sc, sc ≠ doc.1 →
            ¬ (moves sc = moves doc.1 ∧ completedAt sc = completedAt doc.1))
         scores →
  getUserScore scores (userId doc.1)
  = Json 200 (HasScore (moves doc.1) (completedAt doc.1) (rank e)).
Proof.
  intros Hall Hnd Hget He Hdoc Hties.
  rewrite Forall_forall in Hall.
  pose proof (globalOrdering_all users scores Hall) as Hperm.
  apply getLeaderboard_200 in Hget as (Hlimit & Hpage & ->). simpl in He.
  rewrite list_lookup_imap in He.
  apply fmap_Some in He as (doc0 & Hdoc0 & ->). simpl in *.
  set (skip := (parseIntOr queryPage 1 - 1) * parseIntOr queryLimit 50) in *.
  assert (Hskip : 0 ≤ skip) by (unfold skip; nia).
  set (k := Z.to_nat (skip + Z.of_nat i + 1 - 1)) in *.
  assert (Hin : doc.1 ∈ scores).
  { rewrite <- Hperm. apply list_elem_of_fmap_2.
    by eapply list_elem_of_lookup_2. }
  destruct (findOne_unique scores doc.1 Hnd Hin) as [j Hfind].
  unfold getUserScore. rewrite Hfind. do 2 f_equal.
  rewrite <- Hperm.
  rewrite (count_better_position _ k doc);
    [unfold k; lia|apply globalOrdering_sorted|done|].
  intros k' doc' Hk' Hne. rewrite Forall_forall in Hties. apply Hties.
  - rewrite <- Hperm. apply list_elem_of_fmap_2.
    by eapply list_elem_of_lookup_2.
  - intros Heq. apply Hne.
    assert (Hnd' : NoDup (globalOrdering users scores).*1).
    { rewrite Hperm. by eapply NoDup_fmap_1. }
    apply (NoDup_lookup _ k' k doc.1 Hnd'); rewrite list_lookup_fmap.
    + by rewrite Hk'; simpl; rewrite Heq.
    + by rewrite Hdoc.
Qed.

Lemma user_rank_matches_leaderboard_witness :
  getUserScore sampleScores 5 = Json 200 (HasScore (Qc_of_Z 15) 3000 3).
Proof.
  apply (user_rank_matches_leaderboard sampleUsers sampleScores
           (Some "2") (Some "2")
           (match getLeaderboard sampleUsers sampleScores (Some "2") (Some "2") with
            | Json _ body => body
            | Error _ _ => mkLeaderboardBody [] (mkPagination 0 0 0 false false)
            end)
           0
           (mkEntry 3 "Eva Reddy" "me23c5005@iiitdm.ac.in" (Qc_of_Z 15) 3000)
           (mkScore 5 (Qc_of_Z 15) 3000 defaultGameConfiguration,
            mkUser "Eva Reddy" "me23c5005@iiitdm.ac.in" 0)).
  - apply (bool_decide_unpack _). vm_compute. exact I.
  - apply (bool_decide_unpack _). vm_compute. exact I.
  - vm_compute. reflexivity.
  - vm_compute. reflexivity.
  - vm_compute. reflexivity.
  - apply (bool_decide_unpack _). vm_compute. exact I.
Defined.

(** C5 as stated fails: of two players with the same moves at the same
    time, one is second on the leaderboard, and both are first for
    [GET /api/user/score]. *)
Lemma tied_players_rank_differently :
  ¬ (∀ (users : gmap nat User) (scores : list Score)
       (queryLimit queryPage : option string)
       (body : LeaderboardBody) (i : nat) (e : Entry) (doc : Score * User),
       Forall (λ sc, is_Some (users !! userId sc)) scores →
       NoDup (userId <$> scores) →
       getLeaderboard users scores queryLimit queryPage = Json 200 body →
       leaderboard body !! i = Some e →
       globalOrdering users scores !! Z.to_nat (rank e - 1) = Some doc →
       getUserScore scores (userId doc.1)
       = Json 200 (HasScore (moves doc.1) (completedAt doc.1) (rank e))).
Proof.
  intros H.
  specialize (H sampleUsers tiedScores None None
                (match getLeaderboard sampleUsers tiedScores None None with
                 | Json _ body => body
                 | Error _ _ => mkLeaderboardBody [] (mkPagination 0 0 0 false false)
                 end)
                1%nat
                (mkEntry 2 "Bob Sharma" "me21a2002@iiitdm.ac.in" (Qc_of_Z 10) 1000)
                (mkScore 2 (Qc_of_Z 10) 1000 defaultGameConfiguration,
                 mkUser "Bob Sharma" "me21a2002@iiitdm.ac.in" 0)).
  assert (Hbad : getUserScore tiedScores 2
                 = Json 200 (HasScore (Qc_of_Z 10) 1000 2)).
  { apply H.
    - apply (bool_decide_unpack _). vm_compute. exact I.
    - apply (bool_decide_unpack _). vm_compute. exact I.
    - vm_compute. reflexivity.
    - vm_compute. reflexivity.
    - vm_compute. reflexivity. }
  vm_compute in Hbad. discriminate Hbad.
Qed.

(** The tied collection is one that the server builds: two players submit
    10 moves within the same millisecond. *)
Example tiedScores_submitted :
  submitAll [] [mkSubmission sampleUsers 1000 1 (Some (Qc_of_Z 10));
                mkSubmission sampleUsers 1000 2 (Some (Qc_of_Z 10))]
  = tiedScores.
Proof. by vm_compute. Qed.

(** Whichever of the two the sort puts first, the leaderboard ranks them 1
    and 2, and [GET /api/user/score] ranks both of them 1. *)
Example tied_players_both_first :
  getUserScore tiedScores 1 = Json 200 (HasScore (Qc_of_Z 10) 1000 1)
  ∧ getUserScore tiedScores 2 = Json 200 (HasScore (Qc_of_Z 10) 1000 1)
  ∧ rank <$> match getLeaderboard sampleUsers tiedScores None None with
             | Json _ body => leaderboard body
             | Error _ _ => []
             end
    = [1; 2].
Proof. by vm_compute. Qed.

(** The test case of the specification: a record tied on moves with an
    earlier competitor is ranked right after it. *)
Example rank_after_earlier_competitor :
  getUserScore sampleScores 3 = Json 200 (HasScore (Qc_of_Z 10) 1500 1)
  ∧ getUserScore sampleScores 2 = Json 200 (HasScore (Qc_of_Z 10) 2000 2).
Proof. by vm_compute. Qed.

(** ** Pagination *)

Lemma ceilDiv_bounds (a b : Z) :
  0 < b → b * (ceilDiv a b - 1) < a ≤ b * ceilDiv a b.
Proof.
  intros Hb. unfold ceilDiv.
  pose proof (Z.div_mod (- a) b) as Hdiv.
  pose proof (Z.mod_pos_bound (- a) b Hb) as Hmod. nia.
Qed.

(** What [parseInt(q) || d] gives: the default for an absent parameter, for
    one without leading digits and for one that reads as 0; the integer read
    otherwise, whatever its sign. *)
Lemma parseIntOr_cases (q : string) (d : Z) :
  parseIntOr None d = d
  ∧ (parseInt q = None → parseIntOr (Some q) d = d)
  ∧ (parseInt q = Some 0 → parseIntOr (Some q) d = d)
  ∧ (∀ n, parseInt q = Some n → n ≠ 0 → parseIntOr (Some q) d = n).
Proof.
  unfold parseIntOr. simpl. split_and!; [done|by intros ->|by intros ->|].
  intros n -> Hn. by rewrite bool_decide_eq_false_2.
Qed.

(** For a positive [limit] and [page] the handler answers with the window
    that starts at [skip = (page - 1) * limit] and holds at most [limit]
    entries, and with the metadata of the specification. *)
Lemma leaderboard_pagination (users : gmap nat User) (scores : list Score)
    (queryLimit queryPage : option string) :
  let limit := parseIntOr queryLimit 50 in
  let page := parseIntOr queryPage 1 in
  let skip := (page - 1) * limit in
  let total := Z.of_nat (length scores) in
  0 < limit → 0 < page →
  ∃ body,
    getLeaderboard users scores queryLimit queryPage = Json 200 body
    ∧ leaderboard body
      = imap (rankEntry skip)
          (take (Z.to_nat limit)
             (drop (Z.to_nat skip) (globalOrdering users scores)))
    ∧ Z.of_nat (length (leaderboard body)) ≤ limit
    ∧ currentPage (pagination body) = page
    ∧ totalScores (pagination body) = total
    ∧ limit * (totalPages (pagination body) - 1) < total
        ≤ limit * totalPages (pagination body)
    ∧ hasNext (pagination body) = bool_decide (page * limit < total)
    ∧ hasPrev (pagination body) = bool_decide (1 < page).
Proof.
  intros limit page skip total Hlimit Hpage.
  eexists. split; [by apply getLeaderboard_200|]. simpl.
  fold limit page. fold skip. fold total.
  split; [done|]. split; [rewrite length_imap, length_take; lia|].
  split; [done|]. split; [done|]. split; [by apply ceilDiv_bounds|].
  split; [done|]. apply bool_decide_ext. lia.
Qed.

(** C4, at the inputs where the code departs from it.  A negative [limit]
    or [page] is not replaced by the default 50 or 1: [parseInt] reads it,
    it is truthy, the pipeline is refused and the answer is a 500. *)
Theorem negative_limit_or_page_not_defaulted (users : gmap nat User)
    (scores : list Score) :
  parseIntOr (Some "-5") 50 = -5
  ∧ getLeaderboard users scores (Some "-5") None
    = Error 500 "Internal server error"
  ∧ parseIntOr (Some "-1") 1 = -1
  ∧ getLeaderboard users scores None (Some "-1")
    = Error 500 "Internal server error".
Proof. split_and!; reflexivity. Qed.

End LeaderboardClaims.

(* ===================================================================== *)
(** * Further properties of the puzzle                                    *)
(* ===================================================================== *)

Section PuzzleExtras.
Import Puzzle Client.

(** X1.  Geometry of [isAdjacent], for all indices: two cells are adjacent
    exactly when one is three after the other (one row down, same column) or
    one after the other without leaving the row; so never diagonally, never
    across the end of a row, never a cell with itself, and in both
    directions alike. *)
Theorem isAdjacent_geometry (i j : nat) :
  (isAdjacent i j = true ↔
     (j = i + 3 ∨ i = j + 3
      ∨ (j = i + 1 ∧ i mod 3 ≠ 2) ∨ (i = j + 1 ∧ j mod 3 ≠ 2))%nat)
  ∧ isAdjacent i j = isAdjacent j i
  ∧ isAdjacent i i = false.
Proof.
  assert (Hchar : ∀ a b : nat, isAdjacent a b = true ↔
            (b = a + 3 ∨ a = b + 3
             ∨ (b = a + 1 ∧ a mod 3 ≠ 2) ∨ (a = b + 1 ∧ b mod 3 ≠ 2))%nat).
  { intros a b. rewrite isAdjacent_rows_cols.
    pose proof (Nat.div_mod_eq a 3) as Ha.
    pose proof (Nat.div_mod_eq b 3) as Hb.
    pose proof (Nat.mod_upper_bound a 3) as Ha'.
    pose proof (Nat.mod_upper_bound b 3) as Hb'.
    lia. }
  split_and!; [apply Hchar| |].
  - destruct (isAdjacent i j) eqn:Hij, (isAdjacent j i) eqn:Hji; try done.
    + apply Hchar in Hij. apply not_true_iff_false in Hji.
      exfalso. apply Hji, Hchar. lia.
    + apply Hchar in Hji. apply not_true_iff_false in Hij.
      exfalso. apply Hij, Hchar. lia.
  - apply not_true_iff_false. rewrite Hchar. lia.
Qed.

Lemma swapCells_twice (a : list jsval) (i j : nat) :
  (i < length a)%nat → (j < length a)%nat → i ≠ j →
  swapCells (swapCells a i j) i j = a.
Proof.
  intros Hi Hj Hne. apply list_eq. intros k.
  rewrite swapCells_lookup by (rewrite ?swapCells_length; done).
  rewrite swapCells_lookup by done.
  repeat case_decide; subst; done.
Qed.

Lemma run_two_clicks (s : State) (i j : nat) :
  gameWon s = false → selectedSquare s = None →
  i ≠ j → isAdjacent i j = true →
  run s [Click i; Click j]
  = let newGrid := swapCells (grid s) i j in
    let won := bool_decide (newGrid = targetGrid) in
    (mkState (currentUser s) newGrid (moves s + 1) None won,
     if won then submitScore (currentUser s) (moves s + 1) else []).
Proof.
  intros Hw Hs Hne Hadj. cbn [run step].
  rewrite click_selects by done.
  rewrite (click_swaps _ i j) by done. cbn zeta. simpl.
  by rewrite app_nil_r.
Qed.

(** X2.  Undo.  From a state that is not won, with nothing selected and a
    grid of nine cells, swapping two adjacent cells and then swapping the
    same two again gives back the grid as it was; it costs two moves, unless
    the first swap wins, in which case the second does nothing. *)
Theorem swap_twice_restores (s : State) (i j : nat) :
  gameWon s = false → selectedSquare s = None → length (grid s) = 9%nat →
  (i < 9)%nat → (j < 9)%nat → i ≠ j → isAdjacent i j = true →
  let s' := (run s [Click i; Click j; Click i; Click j]).1 in
  if bool_decide (swapCells (grid s) i j = targetGrid) then
    grid s' = targetGrid ∧ moves s' = moves s + 1 ∧ gameWon s' = true
  else
    grid s' = grid s ∧ moves s' = moves s + 2 ∧ selectedSquare s' = None.
Proof.
  intros Hw Hs Hlen Hi Hj Hne Hadj.
  change [Click i; Click j; Click i; Click j]
    with ([Click i; Click j] ++ [Click i; Click j]).
  rewrite run_app, (run_two_clicks s i j) by done. cbn zeta. cbn [fst snd].
  case_bool_decide as Hwin.
  - cbn [run step]. rewrite !click_when_won by done. done.
  - rewrite run_two_clicks by done. cbn zeta. cbn [fst grid moves selectedSquare].
    rewrite swapCells_twice by (rewrite ?Hlen; done).
    split_and!; [done|lia|done].
Qed.

Lemma swap_twice_restores_witness :
  let s := initialState None in
  let s' := (run s [Click 0%nat; Click 1%nat; Click 0%nat; Click 1%nat]).1 in
  if bool_decide (swapCells (grid s) 0 1 = targetGrid) then
    grid s' = targetGrid ∧ moves s' = moves s + 1 ∧ gameWon s' = true
  else
    grid s' = grid s ∧ moves s' = moves s + 2 ∧ selectedSquare s' = None.
Proof.
  apply (swap_twice_restores (initialState None) 0 1);
    [reflexivity | reflexivity | reflexivity | lia | lia | lia | reflexivity].
Defined.

(** ** What the game sends *)

Lemma sendInvariant_weaken (us us' : list Session) (n n' : nat)
    (r : State * list Request) :
  us ⊆ us' → (n ≤ n')%nat → sendInvariant us n r → sendInvariant us' n' r.
Proof.
  intros Hus Hn (Hm & Hcu & Hout & Hlen). split_and!; [done| | |lia].
  - intros usr Husr. apply Hus. by apply Hcu.
  - eapply Forall_impl; [exact Hout|]. intros [token m] (? & usr & ? & ?).
    split; [done|]. exists usr. split; [by apply Hus|done].
Qed.

Lemma sendInvariant_step (us : list Session) (n : nat) (s : State)
    (out : list Request) (a : Action) :
  sendInvariant us n (s, out) →
  sendInvariant
    (us ++ match a with SetCurrentUser (Some v) => [v] | _ => [] end)
    (n + match a with Reset => 1 | _ => 0 end)
    ((step s a).1, out ++ (step s a).2).
Proof.
  intros Hinv. destruct a as [index| |v]; cbn [step fst snd].
  - apply (sendInvariant_weaken us _ n); [set_solver|lia|].
    destruct Hinv as (Hm & Hcu & Hout & Hlen). simpl in *.
    destruct (click_cases s index) as [(sel & Hnw & Hs & Hne & Hadj)|(sq & Heq & _)].
    + rewrite (click_swaps _ sel) by done. cbn zeta. rewrite Hnw in Hlen.
      split_and!; simpl; [lia|done| |].
      * apply Forall_app. split; [done|]. case_bool_decide; [|done].
        unfold submitScore. destruct (currentUser s) as [usr|] eqn:Hu; [|done].
        apply Forall_singleton. split; [lia|]. exists usr. split; [|done].
        by apply Hcu.
      * rewrite length_app. case_bool_decide; [|simpl; lia].
        unfold submitScore. destruct (currentUser s); simpl; lia.
    + rewrite Heq. simpl. rewrite app_nil_r. done.
  - destruct Hinv as (Hm & Hcu & Hout & Hlen). simpl in *.
    rewrite !app_nil_r. split_and!; simpl; [lia|done|done|].
    destruct (gameWon s); lia.
  - destruct Hinv as (Hm & Hcu & Hout & Hlen). simpl in *.
    rewrite app_nil_r, Nat.add_0_r. split_and!; simpl; [done| | |done].
    + intros usr ->. set_solver.
    + eapply Forall_impl; [exact Hout|]. intros [token m] (? & usr & ? & ?).
      split; [done|]. exists usr. split; [set_solver|done].
Qed.

Lemma sendInvariant_run (l : list Action) (us : list Session) (n : nat)
    (s : State) (out : list Request) :
  sendInvariant us n (s, out) →
  sendInvariant
    (us ++ omap id (omap (λ a, match a with
                               | SetCurrentUser v => Some v
                               | _ => None
                               end) l))
    (n + resetsOf l)
    ((run s l).1, out ++ (run s l).2).
Proof.
  revert us n s out. induction l as [|a l IH]; intros us n s out Hinv.
  - simpl. by rewrite !app_nil_r, Nat.add_0_r.
  - apply (sendInvariant_step _ _ _ _ a) in Hinv. apply IH in Hinv.
    cbn [run]. destruct (step s a) as [s1 out1]. simpl in Hinv.
    destruct (run s1 l) as [s2 out2]. simpl in *.
    rewrite <- !app_assoc in Hinv.
    destruct a as [index| |[v|]]; simpl in *;
      rewrite <- ?Nat.add_assoc in Hinv; exact Hinv.
Qed.

(** X3.  What the game sends, along any sequence of clicks, resets, logins
    and logouts from the state of session start: every request carries a
    move count of at least 1 and the token of a user who was logged in; there
    is at most one request per game, that is, one more than the number of
    resets in all; and the move counter is never negative. *)
Theorem requests_are_valid (u : option Session) (l : list Action) :
  let r := run (initialState u) l in
  Forall (λ rq, match rq with
                | PostScores token finalMoves =>
                    1 ≤ finalMoves
                    ∧ ∃ usr, usr ∈ sessionsOf u l ∧ token = s_token usr
                end) r.2
  ∧ (length r.2 ≤ resetsOf l + 1)%nat
  ∧ 0 ≤ moves r.1.
Proof.
  intros r.
  assert (Hinit : sendInvariant (omap id [u]) 0 (initialState u, [])).
  { split_and!; simpl; [done| |done|lia]. intros usr ->. set_solver. }
  apply (sendInvariant_run l) in Hinit. simpl in Hinit. fold r in Hinit.
  destruct Hinit as (Hm & _ & Hout & Hlen). cbn [fst snd] in *.
  split_and!; [|destruct (gameWon r.1); lia|done].
  eapply Forall_impl; [exact Hout|]. intros [token m] (? & usr & Hin & ?).
  split; [done|]. exists usr. split; [|done].
  unfold sessionsOf. destruct u; simpl in *; done.
Qed.

End PuzzleExtras.

(* ===================================================================== *)
(** * Properties of accounts and authentication                           *)
(* ===================================================================== *)

Section TextProperties.
Import Server Text.

Lemma toLowerChar_idemp (c : ascii) :
  toLowerChar (toLowerChar c) = toLowerChar c.
Proof. destruct c as [[] [] [] [] [] [] [] []]; reflexivity. Qed.

Lemma isLetter_toLowerChar (c : ascii) :
  isLetter (toLowerChar c) = isLetter c.
Proof. destruct c as [[] [] [] [] [] [] [] []]; reflexivity. Qed.

Lemma isDigit_toLowerChar (c : ascii) :
  isDigit (toLowerChar c) = isDigit c.
Proof. destruct c as [[] [] [] [] [] [] [] []]; reflexivity. Qed.

Lemma toLowerCase_idemp (s : string) :
  toLowerCase (toLowerCase s) = toLowerCase s.
Proof.
  induction s as [|c s IH]; [done|]. simpl.
  by rewrite toLowerChar_idemp, IH.
Qed.

Lemma toLowerCase_length (s : string) :
  String.length (toLowerCase s) = String.length s.
Proof. induction s as [|c s IH]; simpl; [done|]. by rewrite IH. Qed.

Lemma patternTest_shape (s : string) :
  patternTest s = true ↔
    ∃ l1 l2 d1 d2 l3 d3 d4 d5 d6,
      s = String l1 (String l2 (String d1 (String d2 (String l3
            (String d3 (String d4 (String d5 (String d6 "@iiitdm.ac.in"))))))))
      ∧ isLetter l1 = true ∧ isLetter l2 = true
      ∧ isDigit d1 = true ∧ isDigit d2 = true ∧ isLetter l3 = true
      ∧ isDigit d3 = true ∧ isDigit d4 = true
      ∧ isDigit d5 = true ∧ isDigit d6 = true.
Proof.
  split.
  - intros H.
    do 9 (destruct s as [|? s]; [done|]). cbn [patternTest] in H.
    rewrite !andb_true_iff, bool_decide_eq_true in H.
    destruct H as (((((((((?&?)&?)&?)&?)&?)&?)&?)&?)& ->).
    eexists _, _, _, _, _, _, _, _, _. split; [done|]. split_and!; done.
  - intros (l1&l2&d1&d2&l3&d3&d4&d5&d6& -> &?&?&?&?&?&?&?&?&?).
    cbn [patternTest]. rewrite !andb_true_iff, bool_decide_eq_true.
    split_and!; done.
Qed.

Lemma patternTest_toLowerCase (s : string) :
  patternTest s = true → patternTest (toLowerCase s) = true.
Proof.
  intros (l1&l2&d1&d2&l3&d3&d4&d5&d6& -> &?&?&?&?&?&?&?&?&?)%patternTest_shape.
  apply patternTest_shape.
  exists (toLowerChar l1), (toLowerChar l2), (toLowerChar d1),
         (toLowerChar d2), (toLowerChar l3), (toLowerChar d3),
         (toLowerChar d4), (toLowerChar d5), (toLowerChar d6).
  rewrite !isLetter_toLowerChar, !isDigit_toLowerChar.
  split_and!; done.
Qed.

(** ** [trim] *)

Lemma trimStart_head (s : string) :
  match trimStart s with
  | EmptyString => True
  | String c _ => isWhiteSpace c = false
  end.
Proof.
  induction s as [|c s IH]; simpl; [done|].
  destruct (isWhiteSpace c) eqn:Hc; [done|]. simpl. done.
Qed.

Lemma trimStart_fixed (c : ascii) (s : string) :
  isWhiteSpace c = false → trimStart (String c s) = String c s.
Proof. intros Hc. simpl. by rewrite Hc. Qed.

Lemma trimEnd_head (c : ascii) (s : string) :
  isWhiteSpace c = false → ∃ t, trimEnd (String c s) = String c t.
Proof.
  intros Hc. simpl. destruct (trimEnd s); [|eauto]. rewrite Hc. eauto.
Qed.

Lemma trimEnd_idemp (s : string) : trimEnd (trimEnd s) = trimEnd s.
Proof.
  induction s as [|c s IH]; [done|]. simpl.
  destruct (trimEnd s) as [|d t] eqn:Ht.
  - destruct (isWhiteSpace c) eqn:Hc; [done|]. simpl. by rewrite Hc.
  - simpl in *. rewrite IH. done.
Qed.

Lemma trim_idemp (s : string) : trim (trim s) = trim s.
Proof.
  unfold trim. pose proof (trimStart_head s) as Hhead.
  destruct (trimStart s) as [|c t]; [done|].
  destruct (trimEnd_head c t Hhead) as [t' Ht']. rewrite Ht'.
  rewrite trimStart_fixed by done. rewrite <- Ht'. apply trimEnd_idemp.
Qed.

End TextProperties.

Section ClientAuthProperties.
Import Puzzle Server Text Accounts Client.

(** X4.  [validateEmail].  An address that it accepts has exactly 22
    characters, ends in [@iiitdm.ac.in], and is still accepted once put in
    lower case, which is the form in which it is sent and stored.  The
    converse fails: an address with the domain in capitals is refused,
    although its lower-case form is accepted. *)
Theorem validateEmail_accepts (e : string) :
  (validateEmail e = true →
     String.length e = 22%nat
     ∧ (∃ loc, e = loc +:+ "@iiitdm.ac.in" ∧ String.length loc = 9%nat)
     ∧ validateEmail (toLowerCase e) = true)
  ∧ validateEmail "cs22b1001@IIITDM.AC.IN" = false
  ∧ validateEmail (toLowerCase "cs22b1001@IIITDM.AC.IN") = true.
Proof.
  split_and!; [|reflexivity..].
  intros He. unfold validateEmail in *. split_and!.
  - apply patternTest_shape in He
      as (l1&l2&d1&d2&l3&d3&d4&d5&d6& -> &_). reflexivity.
  - apply patternTest_shape in He
      as (l1&l2&d1&d2&l3&d3&d4&d5&d6& -> &_).
    by exists (String l1 (String l2 (String d1 (String d2 (String l3
                (String d3 (String d4 (String d5 (String d6 ""))))))))).
  - by apply patternTest_toLowerCase.
Qed.

Lemma validateEmail_accepts_witness :
  (validateEmail "CS22b1001@iiitdm.ac.in" = true →
     String.length "CS22b1001@iiitdm.ac.in" = 22%nat
     ∧ (∃ loc, "CS22b1001@iiitdm.ac.in" = loc +:+ "@iiitdm.ac.in"
               ∧ String.length loc = 9%nat)
     ∧ validateEmail (toLowerCase "CS22b1001@iiitdm.ac.in") = true)
  ∧ validateEmail "cs22b1001@IIITDM.AC.IN" = false
  ∧ validateEmail (toLowerCase "cs22b1001@IIITDM.AC.IN") = true.
Proof. exact (validateEmail_accepts "CS22b1001@iiitdm.ac.in"). Defined.

(** The two addresses of the specification. *)
Example validateEmail_examples :
  validateEmail "cs22b1001@iiitdm.ac.in" = true
  ∧ validateEmail "cs2b1001@iiitdm.ac.in" = false.
Proof. by vm_compute. Qed.

End ClientAuthProperties.

Section AccountProperties.
Import Server Text Accounts.

(** ** [findUserByEmail] *)

Lemma findUserByEmail_Some (users : gmap nat User) (e : string)
    (i : nat) (u : User) :
  findUserByEmail users e = Some (i, u) → users !! i = Some u ∧ email u = e.
Proof.
  unfold findUserByEmail. intros H.
  apply fmap_Some in H as ([k [i' u']] & Hfind & Heq). simpl in Heq.
  apply list_find_Some in Hfind as (Hk & He & _). simplify_eq/=.
  split; [|done]. apply elem_of_map_to_list. by eapply list_elem_of_lookup_2.
Qed.

Lemma findUserByEmail_None (users : gmap nat User) (e : string) :
  findUserByEmail users e = None ↔
    ∀ i u, users !! i = Some u → email u ≠ e.
Proof.
  unfold findUserByEmail. rewrite fmap_None, list_find_None, Forall_forall.
  split.
  - intros H i u Hi. apply (H (i, u)). by apply elem_of_map_to_list.
  - intros H [i u] Hin. apply (H i u). by apply elem_of_map_to_list.
Qed.

Lemma findUserByEmail_unique (users : gmap nat User) (i : nat) (u : User) :
  uniqueEmails users → users !! i = Some u →
  findUserByEmail users (email u) = Some (i, u).
Proof.
  intros Huniq Hi.
  destruct (findUserByEmail users (email u)) as [[j v]|] eqn:Hfind.
  - apply findUserByEmail_Some in Hfind as [Hj He].
    assert (j = i) as -> by (by eapply Huniq). congruence.
  - exfalso. by eapply findUserByEmail_None.
Qed.

(** ** [register] *)

Lemma newUser_setters (n e : string) (now : Z) :
  newUser (trim n) (toLowerCase e) now = mkUser (trim n) (toLowerCase e) now.
Proof. unfold newUser. by rewrite trim_idemp, toLowerCase_idemp. Qed.

Lemma validateUser_trimmed (n e : string) (now : Z) :
  (2 ≤ String.length (trim n))%nat →
  validateUser (mkUser (trim n) (toLowerCase e) now)
  = bool_decide (String.length (trim n) ≤ 50)%nat && patternTest (toLowerCase e).
Proof.
  intros Hn. unfold validateUser. simpl.
  rewrite (bool_decide_eq_false_2 (trim n = "")); last first.
  { intros Heq. rewrite Heq in Hn. simpl in Hn. lia. }
  rewrite (bool_decide_eq_true_2 (2 ≤ _)%nat) by done. simpl.
  destruct (bool_decide (String.length (trim n) ≤ 50)%nat); [|done]. simpl.
  destruct (patternTest (toLowerCase e)) eqn:Hp; [|by rewrite andb_false_r].
  rewrite andb_true_r.
  apply patternTest_shape in Hp as (l1&?&?&?&?&?&?&?&?& Heq &_).
  rewrite Heq. done.
Qed.

Lemma register_present (L : Library) (users : gmap nat User) (now : Z)
    (newId : nat) (n e : string) :
  register L users now newId (Some n) (Some e)
  = if bool_decide (n = "") || bool_decide (e = "") then
      (Error 400 "Name and email are required", users)
    else if bool_decide (String.length (trim n) < 2)%nat then
      (Error 400 "Name must be at least 2 characters long", users)
    else if bool_decide (∀ i u, users !! i = Some u → email u ≠ toLowerCase e)
    then
      let user := mkUser (trim n) (toLowerCase e) now in
      if bool_decide (String.length (trim n) ≤ 50)%nat
         && patternTest (toLowerCase e)
      then
        (Json 201
           (mkAuthBody "User registered successfully"
              (mkPublicUser newId (trim n) (toLowerCase e))
              (sign L (mkJwtPayload newId (toLowerCase e)))),
         <[newId:=user]> users)
      else (Error 400 (validationMessage L user), users)
    else (Error 400 "Email already registered", users).
Proof.
  unfold register.
  destruct (bool_decide (n = "") || bool_decide (e = "")); [done|].
  case_bool_decide as Hlen; [done|].
  rewrite newUser_setters.
  destruct (findUserByEmail users (toLowerCase e)) as [[j v]|] eqn:Hfind.
  - rewrite bool_decide_eq_false_2; [done|]. intros Hnone.
    apply findUserByEmail_Some in Hfind as [Hj He]. by eapply Hnone.
  - rewrite bool_decide_eq_true_2 by (by apply findUserByEmail_None).
    cbn zeta. rewrite validateUser_trimmed by lia. done.
Qed.

Lemma register_trimmed (L : Library) (users : gmap nat User) (now : Z)
    (newId : nat) (n0 e0 : string) :
  trim n0 ≠ "" → patternTest (toLowerCase e0) = true →
  register L users now newId (Some (trim n0)) (Some (toLowerCase e0))
  = if bool_decide (String.length (trim n0) < 2)%nat then
      (Error 400 "Name must be at least 2 characters long", users)
    else
      match findUserByEmail users (toLowerCase e0) with
      | Some _ => (Error 400 "Email already registered", users)
      | None =>
          if bool_decide (String.length (trim n0) ≤ 50)%nat then
            (Json 201
               (mkAuthBody "User registered successfully"
                  (mkPublicUser newId (trim n0) (toLowerCase e0))
                  (sign L (mkJwtPayload newId (toLowerCase e0)))),
             <[newId:=mkUser (trim n0) (toLowerCase e0) now]> users)
          else
            (Error 400
               (validationMessage L (mkUser (trim n0) (toLowerCase e0) now)),
             users)
      end.
Proof.
  intros Hn Hpat. unfold register.
  rewrite (bool_decide_eq_false_2 (trim n0 = "")) by done.
  rewrite (bool_decide_eq_false_2 (toLowerCase e0 = "")); last first.
  { intros Heq. by rewrite Heq in Hpat. }
  simpl. rewrite !trim_idemp, !toLowerCase_idemp.
  case_bool_decide as Hlen; [done|].
  destruct (findUserByEmail users (toLowerCase e0)); [done|].
  rewrite newUser_setters, validateUser_trimmed by lia.
  rewrite Hpat, andb_true_r. done.
Qed.

Lemma canRegister_present (users : gmap nat User) (n e : string) :
  canRegister users n e → n ≠ "" ∧ e ≠ "".
Proof.
  intros ([Hn _] & He & _). split; intros ->; [simpl in Hn; lia|done].
Qed.

Lemma register_success (L : Library) (users : gmap nat User) (now : Z)
    (newId : nat) (n e : string) :
  canRegister users n e →
  register L users now newId (Some n) (Some e)
  = (Json 201
       (mkAuthBody "User registered successfully"
          (mkPublicUser newId (trim n) (toLowerCase e))
          (sign L (mkJwtPayload newId (toLowerCase e)))),
     <[newId:=mkUser (trim n) (toLowerCase e) now]> users).
Proof.
  intros Hcan. destruct (canRegister_present _ _ _ Hcan) as [Hn He].
  destruct Hcan as ([Hlo Hhi] & Hpat & Hnew).
  rewrite register_present.
  rewrite (bool_decide_eq_false_2 (n = "")), (bool_decide_eq_false_2 (e = ""))
    by done. simpl.
  rewrite bool_decide_eq_false_2 by lia.
  rewrite bool_decide_eq_true_2 by done. cbn zeta.
  rewrite bool_decide_eq_true_2 by done. rewrite Hpat. done.
Qed.

Lemma register_failure (L : Library) (users : gmap nat User) (now : Z)
    (newId : nat) (n e : string) :
  ¬ canRegister users n e →
  ∃ msg, register L users now newId (Some n) (Some e) = (Error 400 msg, users).
Proof.
  intros Hcannot. rewrite register_present.
  destruct (bool_decide (n = "") || bool_decide (e = "")); [eauto|].
  case_bool_decide as Hlen; [eauto|].
  case_bool_decide as Hnew; [|eauto]. cbn zeta.
  case_bool_decide as Hhi; simpl; [|eauto].
  destruct (patternTest (toLowerCase e)) eqn:Hpat; [|eauto].
  exfalso. apply Hcannot. split_and!; [lia|done..].
Qed.

(** On a body of two strings [registerBody] is [register]. *)
Lemma registerBody_strings (L : Library) (users : gmap nat User) (now : Z)
    (newId : nat) (n e : string) :
  registerBody L users now newId (JString n) (JString e)
  = register L users now newId (Some n) (Some e).
Proof.
  unfold registerBody, register. simpl. by rewrite !negb_involutive.
Qed.

(** X5.  [POST /api/auth/register], every outcome, whatever JSON the body
    holds.  A missing or falsy name or address ([null], [false], 0, the
    empty string) is a 400.  Otherwise a name that is not a string is a 500:
    [name.trim()] throws.  A name that is a string of fewer than two
    characters once trimmed is a 400; with a longer name, an address that is
    not a string is a 500: [email.toLowerCase()] throws.  With two strings,
    the registration succeeds exactly when the trimmed name has 2 to 50
    characters, the address in lower case matches the pattern and no account
    has it: the answer is then 201 with the new id, the trimmed name, the
    address in lower case and a token signed for that id and address, and
    the collection gains exactly that account; otherwise the answer is a
    400.  The collection is unchanged in every case but the 201. *)
Theorem registerBody_outcome (L : Library) (users : gmap nat User) (now : Z)
    (newId : nat) (name email : BodyValue) :
  let r := registerBody L users now newId name email in
  (truthy name = false ∨ truthy email = false →
     r = (Error 400 "Name and email are required", users))
  ∧ (truthy name = true → truthy email = true → (∀ n, name ≠ JString n) →
       r = (Error 500 "Internal server error", users))
  ∧ (∀ n, name = JString n → n ≠ "" → truthy email = true →
       (String.length (trim n) < 2)%nat →
       r = (Error 400 "Name must be at least 2 characters long", users))
  ∧ (∀ n, name = JString n → (2 ≤ String.length (trim n))%nat →
       truthy email = true → (∀ e, email ≠ JString e) →
       r = (Error 500 "Internal server error", users))
  ∧ (∀ n e, name = JString n → email = JString e → canRegister users n e →
       r = (Json 201
              (mkAuthBody "User registered successfully"
                 (mkPublicUser newId (trim n) (toLowerCase e))
                 (sign L (mkJwtPayload newId (toLowerCase e)))),
            <[newId:=mkUser (trim n) (toLowerCase e) now]> users))
  ∧ (∀ n e, name = JString n → email = JString e → ¬ canRegister users n e →
       ∃ msg, r = (Error 400 msg, users)).
Proof.
  intros r. unfold r. split_and!.
  - unfold registerBody. by intros [-> | ->]; [|rewrite orb_true_r].
  - intros Hn He Hns. unfold registerBody. rewrite Hn, He. simpl.
    destruct name; try done. by destruct (Hns s).
  - intros n -> Hn He Hlen. unfold registerBody. rewrite He. simpl.
    rewrite (bool_decide_eq_false_2 (n = "")) by done. simpl.
    by rewrite bool_decide_eq_true_2.
  - intros n -> Hlen He Hes. unfold registerBody. rewrite He. simpl.
    rewrite (bool_decide_eq_false_2 (n = "")); last first.
    { intros ->. simpl in Hlen. lia. }
    simpl. rewrite bool_decide_eq_false_2 by lia.
    destruct email; try done. by destruct (Hes s).
  - intros n e -> -> Hcan. rewrite registerBody_strings.
    by apply register_success.
  - intros n e -> -> Hcannot. rewrite registerBody_strings.
    by apply register_failure.
Qed.

(** A number for a name, then a registration as the client sends it. *)
Lemma registerBody_outcome_witness :
  let L := mkLibrary (λ p, "header.payload.signature") (λ _, None) (λ _, "invalid") in
  registerBody L sampleUsers 42 6 (JNumber (Qc_of_Z 12345))
               (JString "cs23b2009@iiitdm.ac.in")
  = (Error 500 "Internal server error", sampleUsers)
  ∧ registerBody L sampleUsers 42 6 (JString " Farah Khan ")
                 (JString "CS23B2009@iiitdm.ac.in")
    = (Json 201
         (mkAuthBody "User registered successfully"
            (mkPublicUser 6 (trim " Farah Khan ")
                          (toLowerCase "CS23B2009@iiitdm.ac.in"))
            (sign L (mkJwtPayload 6 (toLowerCase "CS23B2009@iiitdm.ac.in")))),
       <[6%nat:=mkUser (trim " Farah Khan ")
                       (toLowerCase "CS23B2009@iiitdm.ac.in") 42]> sampleUsers).
Proof.
  split.
  - apply (registerBody_outcome
             (mkLibrary (λ p, "header.payload.signature") (λ _, None) (λ _, "invalid"))
             sampleUsers 42 6 (JNumber (Qc_of_Z 12345))
             (JString "cs23b2009@iiitdm.ac.in")).
    + reflexivity.
    + reflexivity.
    + intros n. discriminate.
  - apply (registerBody_outcome
             (mkLibrary (λ p, "header.payload.signature") (λ _, None) (λ _, "invalid"))
             sampleUsers 42 6 (JString " Farah Khan ")
             (JString "CS23B2009@iiitdm.ac.in")).
    + reflexivity.
    + reflexivity.
    + apply (bool_decide_unpack _). vm_compute. exact I.
Defined.

(** Bodies that the client never sends. *)
Example registerBody_examples :
  let L := mkLibrary (λ p, "header.payload.signature") (λ _, None) (λ _, "invalid") in
  let status (r : Response AuthBody * gmap nat User) :=
    match r.1 with Json status _ => status | Error status _ => status end in
  status (registerBody L sampleUsers 42 6 (JNumber (Qc_of_Z 12345))
                       (JString "cs23b2009@iiitdm.ac.in")) = 500
  ∧ status (registerBody L sampleUsers 42 6 (JString "Farah Khan")
                         (JNumber (Qc_of_Z 5))) = 500
  ∧ status (registerBody L sampleUsers 42 6 (JString "F") (JNumber (Qc_of_Z 5)))
    = 400
  ∧ status (registerBody L sampleUsers 42 6 (JNumber 0) JArray) = 400
  ∧ status (registerBody L sampleUsers 42 6 JObject JUndefined) = 400
  ∧ status (registerBody L sampleUsers 42 6 (JBool true) JObject) = 500.
Proof. by vm_compute. Qed.

(** The sample registration, as [register] answers it. *)
Example sample_registration :
  (register (mkLibrary (λ p, "header.payload.signature") (λ _, None) (λ _, "invalid"))
            sampleUsers 42 6 (Some " Farah Khan ") (Some "CS23B2009@iiitdm.ac.in")).1
  = Json 201
      (mkAuthBody "User registered successfully"
         (mkPublicUser 6 "Farah Khan" "cs23b2009@iiitdm.ac.in")
         "header.payload.signature").
Proof. by vm_compute. Qed.

(** X6.  What [register] keeps, whatever the request, when the new id is
    fresh: no two accounts share an address, every stored account passes the
    validators of the schema, and the accounts that were there are still
    there, unchanged; at most one account is added. *)
Theorem register_keeps_accounts (L : Library) (users : gmap nat User)
    (now : Z) (newId : nat) (bodyName bodyEmail : option string) :
  users !! newId = None →
  uniqueEmails users →
  map_Forall (λ _ u, validateUser u = true) users →
  let users' := (register L users now newId bodyName bodyEmail).2 in
  uniqueEmails users'
  ∧ map_Forall (λ _ u, validateUser u = true) users'
  ∧ users ⊆ users'
  ∧ (size users' ≤ size users + 1)%nat.
Proof.
  intros Hfresh Huniq Hvalid users'.
  assert (Hcases : users' = users
            ∨ ∃ n e, canRegister users n e
                     ∧ users' = <[newId:=mkUser (trim n) (toLowerCase e) now]> users).
  { unfold users'. destruct bodyName as [n|], bodyEmail as [e|]; try by left.
    destruct (decide (canRegister users n e)) as [Hcan|Hcannot].
    - right. exists n, e. split; [done|].
      by rewrite (register_success L users now newId n e Hcan).
    - left.
      destruct (register_failure L users now newId n e Hcannot) as [msg ->].
      done. }
  destruct Hcases as [->|(n & e & (Hlen & Hpat & Hnew) & ->)].
  { split_and!; [done..|lia]. }
  split_and!.
  - intros i j u v Hi Hj Heq.
    apply lookup_insert_Some in Hi as [[<- <-]|[Hni Hi]];
      apply lookup_insert_Some in Hj as [[<- <-]|[Hnj Hj]]; simpl in *.
    + done.
    + exfalso. by eapply Hnew.
    + exfalso. by eapply Hnew.
    + by eapply Huniq.
  - apply map_Forall_insert; [done|]. split; [|done].
    rewrite validateUser_trimmed by lia. rewrite Hpat.
    rewrite bool_decide_eq_true_2 by lia. done.
  - by apply insert_subseteq.
  - rewrite map_size_insert_None by done. lia.
Qed.

Lemma uniqueEmails_NoDup (users : gmap nat User) :
  NoDup ((λ p, email p.2) <$> map_to_list users) → uniqueEmails users.
Proof.
  intros Hnd i j u v Hi Hj Heq.
  apply elem_of_map_to_list, list_elem_of_lookup in Hi as [a Ha].
  apply elem_of_map_to_list, list_elem_of_lookup in Hj as [b Hb].
  assert (a = b) as ->; [|congruence].
  apply (NoDup_lookup _ a b (email u) Hnd); rewrite list_lookup_fmap.
  - by rewrite Ha.
  - by rewrite Hb; simpl; rewrite Heq.
Qed.

Lemma register_keeps_accounts_witness :
  let L := mkLibrary (λ p, "header.payload.signature") (λ _, None) (λ _, "invalid") in
  let users' := (register L sampleUsers 42 6 (Some " Farah Khan ")
                          (Some "CS23B2009@iiitdm.ac.in")).2 in
  uniqueEmails users'
  ∧ map_Forall (λ _ u, validateUser u = true) users'
  ∧ sampleUsers ⊆ users'
  ∧ (size users' ≤ size sampleUsers + 1)%nat.
Proof.
  apply (register_keeps_accounts
           (mkLibrary (λ p, "header.payload.signature") (λ _, None) (λ _, "invalid"))
           sampleUsers 42 6 (Some " Farah Khan ") (Some "CS23B2009@iiitdm.ac.in")).
  - reflexivity.
  - apply uniqueEmails_NoDup. apply (bool_decide_unpack _). vm_compute. exact I.
  - apply (bool_decide_unpack _). vm_compute. exact I.
Defined.

(** X7.  Register, then log in.  After a registration that succeeds, a login
    with the same address in any mix of capitals is answered 200 with the id,
    the name and the address of the registration, and a token signed for the
    same id and address. *)
Theorem register_then_login (L : Library) (users : gmap nat User) (now : Z)
    (newId : nat) (n e e' : string) :
  canRegister users n e →
  toLowerCase e' = toLowerCase e →
  login L (register L users now newId (Some n) (Some e)).2 (Some e')
  = Json 200
      (mkAuthBody "Login successful"
         (mkPublicUser newId (trim n) (toLowerCase e))
         (sign L (mkJwtPayload newId (toLowerCase e)))).
Proof.
  intros Hcan Hlow.
  rewrite (register_success L users now newId n e Hcan).
  destruct Hcan as (_ & Hpat & Hnew). cbn [snd]. unfold login.
  rewrite bool_decide_eq_false_2; last first.
  { intros ->. simpl in Hlow. rewrite <- Hlow in Hpat. done. }
  rewrite Hlow.
  destruct (findUserByEmail _ (toLowerCase e)) as [[j v]|] eqn:Hfind.
  - apply findUserByEmail_Some in Hfind as [Hj He].
    apply lookup_insert_Some in Hj as [[<- <-]|[_ Hj]]; [done|].
    exfalso. by eapply Hnew.
  - exfalso.
    apply (proj1 (findUserByEmail_None _ _) Hfind newId
             (mkUser (trim n) (toLowerCase e) now)); [|done].
    apply lookup_insert_eq.
Qed.

Lemma register_then_login_witness :
  let L := mkLibrary (λ p, "header.payload.signature") (λ _, None) (λ _, "invalid") in
  login L (register L sampleUsers 42 6 (Some " Farah Khan ")
                    (Some "CS23B2009@iiitdm.ac.in")).2
        (Some "cs23b2009@IIITDM.ac.in")
  = Json 200
      (mkAuthBody "Login successful"
         (mkPublicUser 6 (trim " Farah Khan ") (toLowerCase "CS23B2009@iiitdm.ac.in"))
         (sign L (mkJwtPayload 6 (toLowerCase "CS23B2009@iiitdm.ac.in")))).
Proof.
  apply (register_then_login
           (mkLibrary (λ p, "header.payload.signature") (λ _, None) (λ _, "invalid"))
           sampleUsers 42 6 " Farah Khan " "CS23B2009@iiitdm.ac.in"
           "cs23b2009@IIITDM.ac.in").
  - apply (bool_decide_unpack _). vm_compute. exact I.
  - reflexivity.
Defined.

(** On a body whose address is a string [loginBody] is [login]. *)
Lemma loginBody_string (L : Library) (users : gmap nat User) (e : string) :
  loginBody L users (JString e) = login L users (Some e).
Proof. unfold loginBody, login. simpl. by rewrite negb_involutive. Qed.

(** X8.  [POST /api/auth/login], every outcome, whatever JSON the body
    holds.  A missing or falsy address ([null], [false], 0, the empty
    string) is a 400.  Otherwise an address that is not a string is a 500:
    [email.toLowerCase()] throws.  For an address that is a string, the
    answer is 404 exactly when no account has the address in lower case; and
    a 200 always names an account of the collection that has this address,
    with a token signed for its id and address.  Nothing but the address is
    asked for. *)
Theorem loginBody_outcome (L : Library) (users : gmap nat User)
    (email : BodyValue) :
  (truthy email = false →
     loginBody L users email = Error 400 "Email is required")
  ∧ (truthy email = true → (∀ e, email ≠ JString e) →
       loginBody L users email = Error 500 "Internal server error")
  ∧ (∀ e, email = JString e → e ≠ "" →
       (loginBody L users email = Error 404 "User not found" ↔
          ∀ i u, users !! i = Some u → Server.email u ≠ toLowerCase e)
       ∧ (∀ status error, loginBody L users email = Error status error →
            status = 404)
       ∧ (∀ status body, loginBody L users email = Json status body →
            status = 200
            ∧ ∃ u, users !! p_id (a_user body) = Some u
                   ∧ Server.email u = toLowerCase e
                   ∧ p_email (a_user body) = toLowerCase e
                   ∧ p_name (a_user body) = name u
                   ∧ a_token body
                     = sign L (mkJwtPayload (p_id (a_user body)) (toLowerCase e)))).
Proof.
  split_and!.
  - unfold loginBody. by intros ->.
  - intros He Hes. unfold loginBody. rewrite He. simpl.
    destruct email; try done. by destruct (Hes s).
  - intros e -> He. unfold loginBody. simpl.
    rewrite bool_decide_eq_false_2 by done. simpl.
    destruct (findUserByEmail users (toLowerCase e)) as [[j v]|] eqn:Hfind.
    + apply findUserByEmail_Some in Hfind as [Hj Hv]. split_and!.
      * split; [done|]. intros Hnone. exfalso. by eapply Hnone.
      * done.
      * intros status body [= <- <-]. split; [done|]. exists v. simpl.
        rewrite Hv. done.
    + split_and!; [|by intros ?? [= <- _]|done].
      split; [|done]. intros _. by apply findUserByEmail_None.
Qed.

(** A number for an address, then the address of an account in capitals. *)
Lemma loginBody_outcome_witness :
  let L := mkLibrary (λ p, "header.payload.signature") (λ _, None) (λ _, "invalid") in
  loginBody L sampleUsers (JNumber (Qc_of_Z 5))
  = Error 500 "Internal server error"
  ∧ ∀ status body,
      loginBody L sampleUsers (JString "ME21A2002@iiitdm.ac.in")
      = Json status body →
      status = 200
      ∧ ∃ u, sampleUsers !! p_id (a_user body) = Some u
             ∧ Server.email u = toLowerCase "ME21A2002@iiitdm.ac.in"
             ∧ p_email (a_user body) = toLowerCase "ME21A2002@iiitdm.ac.in"
             ∧ p_name (a_user body) = name u
             ∧ a_token body
               = sign L (mkJwtPayload (p_id (a_user body))
                           (toLowerCase "ME21A2002@iiitdm.ac.in")).
Proof.
  split.
  - apply (loginBody_outcome
             (mkLibrary (λ p, "header.payload.signature") (λ _, None) (λ _, "invalid"))
             sampleUsers (JNumber (Qc_of_Z 5))).
    + reflexivity.
    + intros e. discriminate.
  - apply (loginBody_outcome
             (mkLibrary (λ p, "header.payload.signature") (λ _, None) (λ _, "invalid"))
             sampleUsers (JString "ME21A2002@iiitdm.ac.in")).
    + reflexivity.
    + discriminate.
Defined.

(** The sample login does go through. *)
Example sample_login :
  loginBody (mkLibrary (λ p, "header.payload.signature") (λ _, None) (λ _, "invalid"))
            sampleUsers (JString "ME21A2002@iiitdm.ac.in")
  = Json 200
      (mkAuthBody "Login successful"
         (mkPublicUser 2 "Bob Sharma" "me21a2002@iiitdm.ac.in")
         "header.payload.signature").
Proof. by vm_compute. Qed.

(** ** [authenticateToken] *)

Lemma split_without (sep : ascii) (s : string) :
  without sep s → split sep s = [s].
Proof.
  unfold without. induction s as [|c s IH]; intros Hs; [done|].
  simpl in *. apply not_elem_of_cons in Hs as [Hc Hs].
  rewrite decide_False by done. by rewrite IH.
Qed.

Lemma split_at_first (sep : ascii) (s t : string) :
  without sep s → split sep (s +:+ String sep t) = s :: split sep t.
Proof.
  unfold without. induction s as [|c s IH]; intros Hs; simpl.
  - by rewrite decide_True.
  - simpl in Hs. apply not_elem_of_cons in Hs as [Hc Hs].
    rewrite decide_False by done. by rewrite IH.
Qed.

Lemma append_empty_inv (s t : string) : s +:+ t = "" → s = "" ∧ t = "".
Proof. destruct s; [done|]. simpl. done. Qed.

Lemma bearerToken_second_word (scheme token : string) :
  without " " scheme → without " " token → token ≠ "" →
  bearerToken (Some (scheme +:+ " " +:+ token)) = Some token.
Proof.
  intros Hs Ht Hne. unfold bearerToken.
  rewrite bool_decide_eq_false_2; last first.
  { intros [_ Hbad]%append_empty_inv. done. }
  change (" " +:+ token) with (String " " token).
  rewrite split_at_first, split_without by done. simpl.
  by rewrite bool_decide_eq_false_2.
Qed.

(** X9.  [authenticateToken], header by header.  No header, and a header
    without a space, are answered 401.  For a header made of a first word, one
    space and a non-empty token without spaces, the answer depends on the
    token alone: 403 when it does not verify, and otherwise the request goes
    on as the user of the payload.  The first word is never looked at: it
    need not be [Bearer]. *)
Theorem authenticateToken_header (L : Library) (header scheme token : string) :
  authenticateToken L None = Rejected 401 "Access token required"
  ∧ (without " " header →
       authenticateToken L (Some header) = Rejected 401 "Access token required")
  ∧ (without " " scheme → without " " token → token ≠ "" →
       authenticateToken L (Some (scheme +:+ " " +:+ token))
       = match verify L token with
         | Some user => Authenticated user
         | None => Rejected 403 "Invalid token"
         end).
Proof.
  split_and!; [done|..].
  - intros Hh. unfold authenticateToken, bearerToken.
    case_bool_decide; [done|]. by rewrite split_without.
  - intros Hs Ht Hne. unfold authenticateToken.
    rewrite bearerToken_second_word by done.
    by destruct (verify L token).
Qed.

Lemma authenticateToken_header_witness :
  let L := mkLibrary (λ p, "header.payload.signature")
             (λ t, if bool_decide (t = "header.payload.signature")
                   then Some (mkJwtPayload 6 "cs23b2009@iiitdm.ac.in") else None)
             (λ _, "invalid") in
  authenticateToken L None = Rejected 401 "Access token required"
  ∧ (without " " "Bearer" →
       authenticateToken L (Some "Bearer") = Rejected 401 "Access token required")
  ∧ (without " " "Token" → without " " "header.payload.signature" →
       "header.payload.signature" ≠ "" →
       authenticateToken L (Some ("Token" +:+ " " +:+ "header.payload.signature"))
       = match verify L "header.payload.signature" with
         | Some user => Authenticated user
         | None => Rejected 403 "Invalid token"
         end).
Proof.
  exact (authenticateToken_header
           (mkLibrary (λ p, "header.payload.signature")
              (λ t, if bool_decide (t = "header.payload.signature")
                    then Some (mkJwtPayload 6 "cs23b2009@iiitdm.ac.in") else None)
              (λ _, "invalid"))
           "Bearer" "Token" "header.payload.signature").
Defined.

End AccountProperties.

(* ===================================================================== *)
(** * Further properties of the score ledger                              *)
(* ===================================================================== *)

Section LedgerExtras.
Import Server Accounts.

(** The five ways a request to [POST /api/scores] can go. *)
Lemma postScores_outcome (users : gmap nat User) (scores : list Score)
    (now : Z) (uid : nat) (bodyMoves : option Qc) :
  let r := postScores users scores now uid bodyMoves in
  (r = (Error 400 "Valid moves count is required", scores)
   ∧ ∀ m, bodyMoves = Some m → (m < 1)%Qc)
  ∨ (r = (Error 404 "User not found", scores) ∧ users !! uid = None)
  ∨ ∃ m, bodyMoves = Some m ∧ (1 ≤ m)%Qc ∧ is_Some (users !! uid)
     ∧ ((findOne uid scores = None
         ∧ r = (Json 201 (mkScoreBody "Score submitted successfully!"
                            (mkScoreResult m now true)),
                scores ++ [mkScore uid m now defaultGameConfiguration]))
        ∨ (∃ i old, findOne uid scores = Some (i, old) ∧ (m < moves old)%Qc
             ∧ r = (Json 200 (mkScoreBody "New best score updated!"
                                (mkScoreResult m now true)),
                    <[i:=mkScore uid m now (gameConfiguration old)]> scores))
        ∨ (∃ i old, findOne uid scores = Some (i, old) ∧ (moves old ≤ m)%Qc
             ∧ r = (Json 200 (mkScoreBody "Score submitted, but not your best"
                                (mkScoreResult (moves old) (completedAt old)
                                               false)),
                    scores))).
Proof.
  unfold postScores. destruct bodyMoves as [m|]; [|left; split; [done|done]].
  destruct (bool_decide (m = 0%Qc) || bool_decide (m < 1)%Qc) eqn:Hv.
  { left. split; [done|]. intros ? [= <-].
    apply orb_true_iff in Hv as [Hv|Hv]; apply bool_decide_eq_true in Hv;
      [by subst|done]. }
  apply orb_false_iff in Hv as [_ Hv]. apply bool_decide_eq_false in Hv.
  apply Qcle_ngt in Hv.
  destruct (users !! uid) as [u|] eqn:Hu; [|right; left; done].
  right. right. exists m. split_and!; [done..|].
  destruct (findOne uid scores) as [[i old]|] eqn:Hfind.
  - apply list_find_Some in Hfind as Hold. destruct Hold as (_ & Huid & _).
    case_bool_decide as Hlt.
    + rewrite validateScore_accepted by done. simpl. rewrite Huid.
      right. left. eauto.
    + right. right. exists i, old. split_and!; [done| |done]. by apply Qcle_ngt.
  - rewrite validateScore_accepted by done. left. done.
Qed.

(** X10.  What [POST /api/scores] never does with a body whose [moves] is
    a number or is missing.  (A [moves] of another type is not modelled
    here: a string that is not a number passes the check of the handler and
    fails in [save()], which the handler answers with a 500.)  For a number
    the validation of [save()] never fails after the check of the handler,
    so that, failures of the store aside, the answers are 200, 201, 400 and
    404 and never 500.  When the answer is not 200 or 201 the collection is
    exactly as before; and in every case the collection keeps its length or
    grows by one, and the records that were there keep their place and their
    owner. *)
Theorem postScores_statuses (users : gmap nat User) (scores : list Score)
    (now : Z) (uid : nat) (bodyMoves : option Qc) :
  let r := postScores users scores now uid bodyMoves in
  (∀ status error, r.1 = Error status error →
     (status = 400 ∨ status = 404) ∧ r.2 = scores)
  ∧ (∀ status body, r.1 = Json status body → status = 200 ∨ status = 201)
  ∧ (length scores ≤ length r.2 ≤ length scores + 1)%nat
  ∧ userId <$> take (length scores) r.2 = userId <$> scores.
Proof.
  intros r.
  destruct (postScores_outcome users scores now uid bodyMoves)
    as [[Hr _]|[[Hr _]|(m & _ & _ & _ &
         [[_ Hr]|[(i & old & Hfind & _ & Hr)|(i & old & _ & _ & Hr)]])]];
    fold r in Hr; rewrite Hr; cbn [fst snd].
  - split_and!; [intros ?? [= <- <-]; auto|done|lia..|by rewrite firstn_all].
  - split_and!; [intros ?? [= <- <-]; auto|done|lia..|by rewrite firstn_all].
  - split_and!; [done|intros ?? [= <- <-]; auto|rewrite length_app; simpl; lia..|].
    by rewrite take_app_length.
  - split_and!; [done|intros ?? [= <- <-]; auto|rewrite length_insert; lia..|].
    rewrite <- (length_insert scores i (mkScore uid m now (gameConfiguration old))).
    rewrite firstn_all, list_fmap_insert. apply list_insert_id.
    apply list_find_Some in Hfind as (Hi & Huid & _).
    rewrite list_lookup_fmap, Hi. simpl. by rewrite Huid.
  - split_and!; [done|intros ?? [= <- <-]; auto|lia..|by rewrite firstn_all].
Qed.

Lemma postScores_statuses_witness :
  let r := postScores sampleUsers sampleScores 4000 9 (Some (Qc_of_Z 7)) in
  (∀ status error, r.1 = Error status error →
     (status = 400 ∨ status = 404) ∧ r.2 = sampleScores)
  ∧ (∀ status body, r.1 = Json status body → status = 200 ∨ status = 201)
  ∧ (length sampleScores ≤ length r.2 ≤ length sampleScores + 1)%nat
  ∧ userId <$> take (length sampleScores) r.2 = userId <$> sampleScores.
Proof.
  exact (postScores_statuses sampleUsers sampleScores 4000 9 (Some (Qc_of_Z 7))).
Defined.

(** ** The record of a player across requests *)

Lemma findOne_insert_same (scores : list Score) (uid i : nat) (old new : Score) :
  findOne uid scores = Some (i, old) → userId new = uid →
  findOne uid (<[i:=new]> scores) = Some (i, new).
Proof.
  intros (Hi & _ & Hfirst)%list_find_Some Hnew. apply list_find_Some.
  split_and!; [|done|].
  - apply list_lookup_insert_eq. by eapply lookup_lt_Some.
  - intros j y Hj Hlt. rewrite list_lookup_insert_ne in Hj by lia.
    by eapply Hfirst.
Qed.

Lemma findOne_insert_other (scores : list Score) (uid uid' i0 : nat)
    (old new : Score) :
  scores !! i0 = Some old → userId old = uid → userId new = uid → uid' ≠ uid →
  findOne uid' (<[i0:=new]> scores) = findOne uid' scores.
Proof.
  intros Hi0 Hold Hnew Hne.
  destruct (findOne uid' scores) as [[i sc]|] eqn:Hfind.
  - apply list_find_Some in Hfind as (Hi & Hsc & Hfirst). apply list_find_Some.
    assert (i ≠ i0) by (intros ->; congruence).
    split_and!; [by rewrite list_lookup_insert_ne|done|].
    intros j y Hj Hlt. destruct (decide (j = i0)) as [->|Hj0].
    + rewrite list_lookup_insert_eq in Hj by (by eapply lookup_lt_Some).
      simplify_eq. congruence.
    + rewrite list_lookup_insert_ne in Hj by done. by eapply Hfirst.
  - apply list_find_None. apply list_find_None in Hfind.
    rewrite Forall_forall in Hfind. apply Forall_forall. intros y Hy.
    apply list_elem_of_lookup in Hy as [j Hj].
    destruct (decide (j = i0)) as [->|Hj0].
    + rewrite list_lookup_insert_eq in Hj by (by eapply lookup_lt_Some).
      simplify_eq. congruence.
    + rewrite list_lookup_insert_ne in Hj by done.
      apply Hfind. by eapply list_elem_of_lookup_2.
Qed.

Lemma findOne_snoc_other (scores : list Score) (uid uid' : nat) (new : Score) :
  userId new = uid → uid' ≠ uid →
  findOne uid' (scores ++ [new]) = findOne uid' scores.
Proof.
  intros Hnew Hne. unfold findOne.
  destruct (list_find (λ sc, userId sc = uid') scores) as [[i sc]|] eqn:Hfind.
  - by apply list_find_app_l.
  - rewrite list_find_app_r by done. simpl.
    rewrite decide_False by congruence. done.
Qed.

Lemma findOne_snoc_new (scores : list Score) (uid : nat) (new : Score) :
  findOne uid scores = None → userId new = uid →
  findOne uid (scores ++ [new]) = Some (length scores, new).
Proof.
  intros Hnone Hnew. unfold findOne in *.
  rewrite list_find_app_r by done. simpl.
  rewrite decide_True by done. simpl. by rewrite ?Nat.add_0_r.
Qed.

(** One request, seen from any player [uid']: a record of [uid'] stays where
    it is and never gets worse, and a request of somebody else does not touch
    it, nor gives [uid'] a record. *)
Lemma postScores_record (users : gmap nat User) (scores : list Score)
    (now : Z) (uid : nat) (bodyMoves : option Qc) (uid' : nat) :
  let scores' := (postScores users scores now uid bodyMoves).2 in
  (uid' ≠ uid → findOne uid' scores' = findOne uid' scores)
  ∧ (∀ i sc, findOne uid' scores = Some (i, sc) →
       ∃ sc', findOne uid' scores' = Some (i, sc')
              ∧ (sc' = sc ∨ (moves sc' < moves sc)%Qc)).
Proof.
  intros scores'.
  destruct (postScores_outcome users scores now uid bodyMoves)
    as [[Hr _]|[[Hr _]|(m & _ & _ & _ &
         [[Hnone Hr]|[(i0 & old & Hfind & Hlt & Hr)|(i0 & old & _ & _ & Hr)]])]];
    unfold scores'; rewrite Hr; cbn [snd]; try (split; [done|eauto]).
  - split; [intros Hne; by eapply findOne_snoc_other|].
    intros i sc Hsc. exists sc. split; [|by left].
    destruct (decide (uid' = uid)) as [->|Hne]; [congruence|].
    by erewrite findOne_snoc_other.
  - apply list_find_Some in Hfind as Hold. destruct Hold as (Hi0 & Huid & _).
    split; [intros Hne; by apply (findOne_insert_other _ uid uid' i0 old)|].
    intros i sc Hsc. destruct (decide (uid' = uid)) as [->|Hne].
    + assert (i = i0 ∧ sc = old) as [-> ->] by (split; congruence).
      eexists. split; [by apply (findOne_insert_same _ _ _ old)|]. right. done.
    + exists sc. split; [|by left].
      by rewrite (findOne_insert_other _ uid uid' i0 old).
Qed.

(** X11.  Along any sequence of requests, by anyone, with any bodies: a
    player who has a record keeps one at the same place in the collection,
    and its moves never go up; and requests of other players leave what
    [findOne] gives for this player exactly as it was. *)
Theorem record_only_improves (l : list Submission) (scores : list Score)
    (uid : nat) :
  (∀ i sc, findOne uid scores = Some (i, sc) →
     ∃ sc', findOne uid (submitAll scores l) = Some (i, sc')
            ∧ (moves sc' ≤ moves sc)%Qc)
  ∧ (Forall (λ r, sub_uid r ≠ uid) l →
       findOne uid (submitAll scores l) = findOne uid scores).
Proof.
  revert scores. induction l as [|r l IH]; intros scores.
  { split; [|done]. intros i sc Hsc. exists sc. split; [done|]. apply Qcle_refl. }
  cbn [submitAll].
  destruct (postScores_record (sub_users r) scores (sub_now r) (sub_uid r)
              (sub_moves r) uid) as [Hother Hsame].
  destruct (IH (postScores (sub_users r) scores (sub_now r) (sub_uid r)
                  (sub_moves r)).2) as [IH1 IH2].
  split.
  - intros i sc Hsc. destruct (Hsame i sc Hsc) as (sc1 & Hsc1 & Hcmp).
    destruct (IH1 i sc1 Hsc1) as (sc' & Hsc' & Hle).
    exists sc'. split; [done|]. eapply Qcle_trans; [exact Hle|].
    destruct Hcmp as [->|Hlt]; [apply Qcle_refl|by apply Qclt_le_weak].
  - intros [Hr Hl]%Forall_cons_1. rewrite IH2 by done. by apply Hother.
Qed.

Lemma record_only_improves_witness :
  let l := [mkSubmission sampleUsers 4000 2 (Some (Qc_of_Z 12));
            mkSubmission sampleUsers 5000 1 (Some (Qc_of_Z 7));
            mkSubmission sampleUsers 6000 1 (Some (Qc_of_Z 9))] in
  (∀ i sc, findOne 1 sampleScores = Some (i, sc) →
     ∃ sc', findOne 1 (submitAll sampleScores l) = Some (i, sc')
            ∧ (moves sc' ≤ moves sc)%Qc)
  ∧ (Forall (λ r, sub_uid r ≠ 1%nat) l →
       findOne 1 (submitAll sampleScores l) = findOne 1 sampleScores).
Proof.
  exact (record_only_improves
           [mkSubmission sampleUsers 4000 2 (Some (Qc_of_Z 12));
            mkSubmission sampleUsers 5000 1 (Some (Qc_of_Z 7));
            mkSubmission sampleUsers 6000 1 (Some (Qc_of_Z 9))]
           sampleScores 1).
Defined.

(** What [findOne] gives for the player right after an accepted request:
    the record whose moves and time the answer reports. *)
Lemma postScores_then_findOne (users : gmap nat User) (scores : list Score)
    (now : Z) (uid : nat) (bodyMoves : option Qc) (status : Z) (body : ScoreBody) :
  let r := postScores users scores now uid bodyMoves in
  r.1 = Json status body →
  ∃ i sc, findOne uid r.2 = Some (i, sc)
          ∧ moves sc = r_moves (score body)
          ∧ completedAt sc = r_completedAt (score body)
          ∧ ∃ m, bodyMoves = Some m ∧ (1 ≤ m)%Qc ∧ (moves sc ≤ m)%Qc.
Proof.
  intros r.
  destruct (postScores_outcome users scores now uid bodyMoves)
    as [[Hr _]|[[Hr _]|(m & Hm & Hge & _ &
         [[Hnone Hr]|[(i0 & old & Hfind & Hlt & Hr)|(i0 & old & Hfind & Hle & Hr)]])]];
    fold r in Hr; rewrite Hr; cbn [fst snd]; intros [= <- <-].
  - eexists _, _. split; [by apply findOne_snoc_new|]. simpl.
    split_and!; [done..|]. exists m. split_and!; [done..|apply Qcle_refl].
  - eexists _, _. split; [by apply (findOne_insert_same _ _ _ old)|]. simpl.
    split_and!; [done..|]. exists m. split_and!; [done..|apply Qcle_refl].
  - exists i0, old. split; [done|]. simpl.
    split_and!; [done..|]. exists m. split_and!; done.
Qed.

(** X12.  Submit, then ask.  After a request that [POST /api/scores]
    accepts, [GET /api/user/score] for the same player answers with a score,
    and its moves and completion time are those that the submission
    reported; the moves are at most the ones submitted, and the rank lies
    between 1 and the number of records.  A player without any record gets
    [hasScore: false]. *)
Theorem submit_then_user_score (users : gmap nat User) (scores : list Score)
    (now : Z) (uid : nat) (bodyMoves : option Qc) (status : Z) (body : ScoreBody) :
  let r := postScores users scores now uid bodyMoves in
  (r.1 = Json status body →
     ∃ rank, getUserScore r.2 uid
             = Json 200 (HasScore (r_moves (score body))
                                  (r_completedAt (score body)) rank)
             ∧ 1 ≤ rank ≤ Z.of_nat (length r.2)
             ∧ ∃ m, bodyMoves = Some m ∧ (r_moves (score body) ≤ m)%Qc)
  ∧ (Forall (λ sc, userId sc ≠ uid) scores →
       getUserScore scores uid = Json 200 NoScore).
Proof.
  intros r. split.
  - intros Hr.
    destruct (postScores_then_findOne users scores now uid bodyMoves status body Hr)
      as (i & sc & Hfind & Hm & Ht & m & Hbody & _ & Hle).
    fold r in Hfind. unfold getUserScore. rewrite Hfind, Hm, Ht.
    eexists. split; [done|]. split.
    + pose proof (length_filter (better sc) r.2) as Hlen.
      assert (length (filter (better sc) r.2) < length r.2)%nat; [|lia].
      apply (length_filter_lt _ _ sc); [|apply not_better_self].
      apply list_find_Some in Hfind as (Hi & _). by eapply list_elem_of_lookup_2.
    + exists m. split; [done|]. by rewrite <- Hm.
  - intros Hnone. unfold getUserScore.
    assert (findOne uid scores = None) as ->; [|done].
    by apply list_find_None.
Qed.

Lemma submit_then_user_score_witness :
  let r := postScores sampleUsers sampleScores 4000 1 (Some (Qc_of_Z 7)) in
  let body := mkScoreBody "New best score updated!"
                (mkScoreResult (Qc_of_Z 7) 4000 true) in
  (r.1 = Json 200 body →
     ∃ rank, getUserScore r.2 1
             = Json 200 (HasScore (r_moves (score body))
                                  (r_completedAt (score body)) rank)
             ∧ 1 ≤ rank ≤ Z.of_nat (length r.2)
             ∧ ∃ m, Some (Qc_of_Z 7) = Some m ∧ (r_moves (score body) ≤ m)%Qc)
  ∧ (Forall (λ sc, userId sc ≠ 1%nat) sampleScores →
       getUserScore sampleScores 1 = Json 200 NoScore).
Proof.
  exact (submit_then_user_score sampleUsers sampleScores 4000 1
           (Some (Qc_of_Z 7)) 200
           (mkScoreBody "New best score updated!"
              (mkScoreResult (Qc_of_Z 7) 4000 true))).
Defined.

(** X13.  Submitting twice.  When a player with an account sends the same
    moves (at least 1) a second time, at whatever time, the second request
    changes nothing in the collection and is answered 200 with
    [improved: false] and the moves and completion time that the first
    answer reported. *)
Theorem resubmission_changes_nothing (users : gmap nat User)
    (scores : list Score) (now1 now2 : Z) (uid : nat) (m : Qc) :
  (1 ≤ m)%Qc → is_Some (users !! uid) →
  let r1 := postScores users scores now1 uid (Some m) in
  let r2 := postScores users r1.2 now2 uid (Some m) in
  r2.2 = r1.2
  ∧ ∃ status body1,
      r1.1 = Json status body1
      ∧ r2.1 = Json 200
                 (mkScoreBody "Score submitted, but not your best"
                    (mkScoreResult (r_moves (score body1))
                                   (r_completedAt (score body1)) false)).
Proof.
  intros Hm [u Hu] r1 r2.
  assert (∃ status body1, r1.1 = Json status body1) as (status & body1 & Hr1).
  { destruct (postScores_outcome users scores now1 uid (Some m))
      as [[_ Hlt]|[[_ Hnone]|(m' & _ & _ & _ &
           [[_ Hr]|[(? & ? & _ & _ & Hr)|(? & ? & _ & _ & Hr)]])]];
      try (fold r1 in Hr; rewrite Hr; by eauto).
    - exfalso. apply (proj1 (Qcle_ngt 1 m) Hm). by apply Hlt.
    - congruence. }
  destruct (postScores_then_findOne users scores now1 uid (Some m) status body1 Hr1)
    as (i & sc & Hfind & Hmoves & Htime & m' & [= <-] & _ & Hle).
  fold r1 in Hfind.
  destruct (postScores_outcome users r1.2 now2 uid (Some m))
    as [[_ Hlt]|[[_ Hnone]|(m' & [= <-] & _ & _ &
         [[Hnone Hr]|[(i' & old & Hfind' & Hlt & Hr)|(i' & old & Hfind' & _ & Hr)]])]];
    try fold r2 in Hr.
  - exfalso. apply (proj1 (Qcle_ngt 1 m) Hm). by apply Hlt.
  - congruence.
  - congruence.
  - exfalso. assert (old = sc) as -> by congruence.
    by apply (proj1 (Qcle_ngt _ _) Hle).
  - assert (old = sc) as -> by congruence. rewrite Hr. cbn [fst snd].
    split; [done|]. exists status, body1. by rewrite Hmoves, Htime.
Qed.

Lemma resubmission_changes_nothing_witness :
  let r1 := postScores sampleUsers sampleScores 4000 1 (Some (Qc_of_Z 7)) in
  let r2 := postScores sampleUsers r1.2 5000 1 (Some (Qc_of_Z 7)) in
  r2.2 = r1.2
  ∧ ∃ status body1,
      r1.1 = Json status body1
      ∧ r2.1 = Json 200
                 (mkScoreBody "Score submitted, but not your best"
                    (mkScoreResult (r_moves (score body1))
                                   (r_completedAt (score body1)) false)).
Proof.
  apply (resubmission_changes_nothing sampleUsers sampleScores 4000 5000 1
           (Qc_of_Z 7)).
  - vm_compute. discriminate.
  - apply (bool_decide_unpack _). vm_compute. exact I.
Defined.

(** ** The collection as a whole *)

Lemma postScores_wellKept (U users : gmap nat User) (scores : list Score)
    (now : Z) (uid : nat) (bodyMoves : option Qc) :
  users ⊆ U → wellKept U scores →
  wellKept U (postScores users scores now uid bodyMoves).2.
Proof.
  intros Hsub [Hnd Hall]. split; [by apply postScores_one_per_player|].
  destruct (postScores_outcome users scores now uid bodyMoves)
    as [[Hr _]|[[Hr _]|(m & _ & _ & [u Hu] &
         [[_ Hr]|[(i & old & Hfind & _ & Hr)|(i & old & _ & _ & Hr)]])]];
    rewrite Hr; cbn [snd]; try done.
  - apply Forall_app. split; [done|]. apply Forall_singleton. simpl.
    split; [|done]. exists u. by eapply lookup_weaken.
  - apply list_find_Some in Hfind as (Hi & _).
    apply Forall_insert; [done|]. simpl. split.
    + exists u. by eapply lookup_weaken.
    + rewrite Forall_lookup in Hall. by destruct (Hall i old Hi).
Qed.

(** X14.  The collection that the server builds, from empty, through any
    sequence of requests, while accounts are only ever added: it has at most
    one record per player, every record belongs to an account, and every
    record carries the starting grid [3,6,4,2,5,8,1,7,9]. *)
Theorem collection_is_well_kept (U : gmap nat User) (l : list Submission) :
  Forall (λ r, sub_users r ⊆ U) l →
  let scores := submitAll [] l in
  NoDup (userId <$> scores)
  ∧ Forall (λ sc, is_Some (U !! userId sc)) scores
  ∧ Forall (λ sc, gameConfiguration sc = [3; 6; 4; 2; 5; 8; 1; 7; 9]) scores.
Proof.
  intros Hl scores.
  assert (Hkept : wellKept U scores).
  { unfold scores. cut (wellKept U []); [|by split; constructor].
    generalize (@nil Score). induction l as [|r l IH]; intros scores0 H0; [done|].
    apply Forall_cons_1 in Hl as [Hr Hl]. cbn [submitAll].
    apply IH; [done|]. by apply postScores_wellKept. }
  destruct Hkept as [Hnd Hall]. split_and!; [done|..];
    (eapply Forall_impl; [exact Hall|]; by intros sc [? ?]).
Qed.

Lemma collection_is_well_kept_witness :
  let scores := submitAll []
                  [mkSubmission sampleUsers 1000 1 (Some (Qc_of_Z 20));
                   mkSubmission sampleUsers 2000 2 (Some (Qc_of_Z 10));
                   mkSubmission sampleUsers 3000 1 (Some (Qc_of_Z 12));
                   mkSubmission sampleUsers 3500 9 (Some (Qc_of_Z 3))] in
  NoDup (userId <$> scores)
  ∧ Forall (λ sc, is_Some (sampleUsers !! userId sc)) scores
  ∧ Forall (λ sc, gameConfiguration sc = [3; 6; 4; 2; 5; 8; 1; 7; 9]) scores.
Proof.
  apply (collection_is_well_kept sampleUsers
           [mkSubmission sampleUsers 1000 1 (Some (Qc_of_Z 20));
            mkSubmission sampleUsers 2000 2 (Some (Qc_of_Z 10));
            mkSubmission sampleUsers 3000 1 (Some (Qc_of_Z 12));
            mkSubmission sampleUsers 3500 9 (Some (Qc_of_Z 3))]).
  repeat (apply Forall_cons; split; [reflexivity|]). apply Forall_nil_2.
Defined.

End LedgerExtras.

(* ===================================================================== *)
(** * Further properties of the leaderboard and the statistics            *)
(* ===================================================================== *)

Section LeaderboardExtras.
Import Server Accounts.

Lemma globalOrdering_length (users : gmap nat User) (scores : list Score) :
  Forall (λ sc, is_Some (users !! userId sc)) scores →
  length (globalOrdering users scores) = length scores.
Proof.
  intros Hall. rewrite Forall_forall in Hall.
  rewrite <- (Permutation_length (globalOrdering_all users scores Hall)).
  by rewrite length_fmap.
Qed.

Lemma page_in_range (total limit page : Z) :
  0 < limit → 0 < page →
  page ≤ ceilDiv total limit ↔ (page - 1) * limit < total.
Proof.
  intros Hlimit Hpage. pose proof (ceilDiv_bounds total limit Hlimit). nia.
Qed.

(** X15.  The pagination tells the truth.  With every score belonging to an
    account, and a positive [limit] and [page]: the page holds
    [min(limit, max(0, total - skip))] entries; it is non-empty exactly when
    [page <= totalPages]; and [hasNext] is true exactly when the page after
    it, asked with the same [limit], has an entry. *)
Theorem pagination_is_truthful (users : gmap nat User) (scores : list Score)
    (queryLimit queryPage queryNext : option string) :
  let limit := parseIntOr queryLimit 50 in
  let page := parseIntOr queryPage 1 in
  let skip := (page - 1) * limit in
  let total := Z.of_nat (length scores) in
  Forall (λ sc, is_Some (users !! userId sc)) scores →
  0 < limit → 0 < page → parseIntOr queryNext 1 = page + 1 →
  ∃ body next,
    getLeaderboard users scores queryLimit queryPage = Json 200 body
    ∧ getLeaderboard users scores queryLimit queryNext = Json 200 next
    ∧ Z.of_nat (length (leaderboard body)) = Z.min limit (Z.max 0 (total - skip))
    ∧ (leaderboard body ≠ [] ↔ page ≤ totalPages (pagination body))
    ∧ (hasNext (pagination body) = true ↔ leaderboard next ≠ []).
Proof.
  intros limit page skip total Hall Hlimit Hpage Hnext.
  assert (Hlen : ∀ qp, 0 < parseIntOr qp 1 →
            ∃ b, getLeaderboard users scores queryLimit qp = Json 200 b
                 ∧ Z.of_nat (length (leaderboard b))
                   = Z.min limit (Z.max 0 (total - (parseIntOr qp 1 - 1) * limit))
                 ∧ pagination b
                   = mkPagination (parseIntOr qp 1) (ceilDiv total limit) total
                       (bool_decide (parseIntOr qp 1 * limit < total))
                       (bool_decide (parseIntOr qp 1 > 1))).
  { intros qp Hqp. eexists. split; [by apply getLeaderboard_200|]. simpl.
    split; [|done].
    rewrite length_imap, length_take, length_drop, globalOrdering_length by done.
    fold limit total. nia. }
  destruct (Hlen queryPage Hpage) as (body & Hbody & Hsize & Hpag).
  destruct (Hlen queryNext) as (next & Hnxt & Hsize' & _); [lia|].
  fold page in Hsize, Hpag. rewrite Hnext in Hsize'. fold skip in Hsize.
  exists body, next. split_and!; [done..| |].
  - rewrite Hpag. simpl. rewrite page_in_range by done. fold skip.
    destruct (leaderboard body); simpl in *; split; intros; try done; lia.
  - rewrite Hpag. simpl. rewrite bool_decide_eq_true.
    destruct (leaderboard next); simpl in *; split; intros; try done; lia.
Qed.

Lemma pagination_is_truthful_witness :
  let limit := parseIntOr (Some "2") 50 in
  let page := parseIntOr (Some "2") 1 in
  let skip := (page - 1) * limit in
  let total := Z.of_nat (length sampleScores) in
  ∃ body next,
    getLeaderboard sampleUsers sampleScores (Some "2") (Some "2") = Json 200 body
    ∧ getLeaderboard sampleUsers sampleScores (Some "2") (Some "3") = Json 200 next
    ∧ Z.of_nat (length (leaderboard body)) = Z.min limit (Z.max 0 (total - skip))
    ∧ (leaderboard body ≠ [] ↔ page ≤ totalPages (pagination body))
    ∧ (hasNext (pagination body) = true ↔ leaderboard next ≠ []).
Proof.
  apply (pagination_is_truthful sampleUsers sampleScores
           (Some "2") (Some "2") (Some "3")).
  - apply (bool_decide_unpack _). vm_compute. exact I.
  - reflexivity.
  - reflexivity.
  - reflexivity.
Defined.

(** X16.  The two ranks, ties included.  With every score belonging to an
    account and one record per player: for the record behind any entry of the
    leaderboard, [GET /api/user/score] gives its player the moves and the
    completion time of the entry, and a rank that is at least 1 and never
    worse than the rank on the leaderboard. *)
Theorem user_rank_at_most_leaderboard_rank (users : gmap nat User)
    (scores : list Score) (queryLimit queryPage : option string)
    (body : LeaderboardBody) (i : nat) (e : Entry) (doc : Score * User) :
  Forall (λ sc, is_Some (users !! userId sc)) scores →
  NoDup (userId <$> scores) →
  getLeaderboard users scores queryLimit queryPage = Json 200 body →
  leaderboard body !! i = Some e →
  globalOrdering users scores !! Z.to_nat (rank e - 1) = Some doc →
  ∃ r, getUserScore scores (userId doc.1)
       = Json 200 (HasScore (e_moves e) (e_completedAt e) r)
       ∧ 1 ≤ r ≤ rank e.
Proof.
  intros Hall Hnd Hget He Hdoc.
  rewrite Forall_forall in Hall.
  pose proof (globalOrdering_all users scores Hall) as Hperm.
  apply getLeaderboard_200 in Hget as (Hlimit & Hpage & ->). simpl in He.
  rewrite list_lookup_imap in He.
  apply fmap_Some in He as (doc0 & Hdoc0 & ->). simpl in *.
  set (skip := (parseIntOr queryPage 1 - 1) * parseIntOr queryLimit 50) in *.
  assert (Hskip : 0 ≤ skip) by (unfold skip; nia).
  apply window_lookup in Hdoc0 as [_ Hdoc0]; [|done].
  replace (Z.to_nat (skip + Z.of_nat i + 1 - 1))
    with (Z.to_nat (skip + Z.of_nat i)) in Hdoc by lia.
  assert (doc0 = doc) as -> by congruence.
  assert (Hin : doc.1 ∈ scores).
  { rewrite <- Hperm. apply list_elem_of_fmap_2.
    by eapply list_elem_of_lookup_2. }
  destruct (findOne_unique scores doc.1 Hnd Hin) as [j Hfind].
  unfold getUserScore. rewrite Hfind. eexists. split; [done|].
  rewrite <- Hperm.
  pose proof (count_better_at_most _ _ doc (globalOrdering_sorted users scores)
                Hdoc) as Hle.
  lia.
Qed.

Lemma user_rank_at_most_leaderboard_rank_witness :
  ∃ r, getUserScore tiedScores 2
       = Json 200 (HasScore (Qc_of_Z 10) 1000 r)
       ∧ 1 ≤ r ≤ 2.
Proof.
  apply (user_rank_at_most_leaderboard_rank sampleUsers tiedScores None None
           (match getLeaderboard sampleUsers tiedScores None None with
            | Json _ body => body
            | Error _ _ => mkLeaderboardBody [] (mkPagination 0 0 0 false false)
            end)
           1
           (mkEntry 2 "Bob Sharma" "me21a2002@iiitdm.ac.in" (Qc_of_Z 10) 1000)
           (mkScore 2 (Qc_of_Z 10) 1000 defaultGameConfiguration,
            mkUser "Bob Sharma" "me21a2002@iiitdm.ac.in" 0)).
  - apply (bool_decide_unpack _). vm_compute. exact I.
  - apply (bool_decide_unpack _). vm_compute. exact I.
  - vm_compute. reflexivity.
  - vm_compute. reflexivity.
  - vm_compute. reflexivity.
Defined.

(** ** [GET /api/stats] *)

Lemma Qcmin2_le (a b : Qc) : (Qcmin2 a b ≤ a)%Qc ∧ (Qcmin2 a b ≤ b)%Qc.
Proof.
  unfold Qcmin2. case_decide as H.
  - split; [apply Qcle_refl|done].
  - split; [|apply Qcle_refl]. apply Qclt_le_weak. by apply Qclt_nge.
Qed.

Lemma Qcmax2_ge (a b : Qc) : (a ≤ Qcmax2 a b)%Qc ∧ (b ≤ Qcmax2 a b)%Qc.
Proof.
  unfold Qcmax2. case_decide as H.
  - split; [done|apply Qcle_refl].
  - split; [apply Qcle_refl|]. apply Qclt_le_weak. by apply Qclt_nge.
Qed.

Lemma groupMinMax_spec (scores : list Score) :
  match groupMinMax scores with
  | None => scores = []
  | Some (lo, hi) =>
      Forall (λ sc, (lo ≤ moves sc)%Qc ∧ (moves sc ≤ hi)%Qc) scores
      ∧ (∃ sc, sc ∈ scores ∧ moves sc = lo)
      ∧ (∃ sc, sc ∈ scores ∧ moves sc = hi)
  end.
Proof.
  induction scores as [|sc scores IH]; [done|]. simpl.
  destruct (groupMinMax scores) as [[lo hi]|].
  - destruct IH as (Hall & (slo & Hslo & Hlo) & (shi & Hshi & Hhi)).
    destruct (Qcmin2_le (moves sc) lo) as [Hm1 Hm2].
    destruct (Qcmax2_ge (moves sc) hi) as [HM1 HM2].
    split_and!.
    + constructor; [done|]. eapply Forall_impl; [exact Hall|].
      intros x [? ?]. split; by eapply Qcle_trans.
    + unfold Qcmin2. case_decide; [exists sc|exists slo]; split;
        try done; [by left|by right].
    + unfold Qcmax2. case_decide; [exists shi|exists sc]; split;
        try done; [by right|by left].
  - subst. split_and!.
    + constructor; [|done]. split; apply Qcle_refl.
    + exists sc. split; [by left|done].
    + exists sc. split; [by left|done].
Qed.

(** X17.  [GET /api/stats].  [bestScore] and [worstScore] are 0 for an
    empty collection; otherwise each is the moves of some record, and every
    record lies between them.  With every score belonging to an account, the
    first entry of the leaderboard has [bestScore] moves. *)
Theorem stats_extremes (users : gmap nat User) (scores : list Score)
    (body : LeaderboardBody) (e : Entry) :
  let st := getStats users scores in
  (scores = [] → bestScore st = 0%Qc ∧ worstScore st = 0%Qc)
  ∧ Forall (λ sc, (bestScore st ≤ moves sc)%Qc ∧ (moves sc ≤ worstScore st)%Qc)
           scores
  ∧ (scores ≠ [] →
       (∃ sc, sc ∈ scores ∧ moves sc = bestScore st)
       ∧ (∃ sc, sc ∈ scores ∧ moves sc = worstScore st))
  ∧ (Forall (λ sc, is_Some (users !! userId sc)) scores →
     getLeaderboard users scores None None = Json 200 body →
     leaderboard body !! 0%nat = Some e →
     e_moves e = bestScore st).
Proof.
  intros st. pose proof (groupMinMax_spec scores) as Hspec.
  unfold st, getStats. simpl.
  destruct (groupMinMax scores) as [[lo hi]|]; simpl.
  - destruct Hspec as (Hall & (slo & Hslo & Hlo) & Hhi).
    split_and!; [by intros ->; apply elem_of_nil in Hslo|done| |].
    { intros _. split; [by exists slo|done]. }
    intros Husers Hget He. rewrite Forall_forall in Husers.
    pose proof (globalOrdering_all users scores Husers) as Hperm.
    apply getLeaderboard_200 in Hget as (_ & _ & ->). simpl in He.
    rewrite list_lookup_imap in He.
    apply fmap_Some in He as (doc & Hdoc & ->). simpl.
    apply (window_lookup _ 0 50) in Hdoc as [_ Hdoc]; [|done].
    change (Z.to_nat (0 + Z.of_nat 0)) with 0%nat in Hdoc.
    fold (globalOrdering users scores) in Hdoc.
    apply Qcle_antisym.
    + rewrite <- Hperm in Hslo.
      apply list_elem_of_fmap in Hslo as (dlo & -> & Hdlo).
      apply list_elem_of_lookup in Hdlo as [k Hk]. rewrite <- Hlo.
      destruct k as [|k]; [assert (dlo = doc) as -> by congruence; apply Qcle_refl|].
      pose proof (sorted_positions sortOrder _ 0 (S k) doc dlo
                    (globalOrdering_sorted users scores) Hdoc Hk) as Hord.
      destruct Hord as [Hlt|[Heq _]]; [lia|by apply Qclt_le_weak|].
      rewrite Heq. apply Qcle_refl.
    + rewrite Forall_forall in Hall. apply Hall. rewrite <- Hperm.
      apply list_elem_of_fmap_2. by eapply list_elem_of_lookup_2.
  - subst. split_and!; [done|done|done|].
    intros _ Hget He.
    apply getLeaderboard_200 in Hget as (_ & _ & ->). simpl in He. done.
Qed.

Lemma stats_extremes_witness :
  let st := getStats sampleUsers sampleScores in
  let body := match getLeaderboard sampleUsers sampleScores None None with
              | Json _ body => body
              | Error _ _ => mkLeaderboardBody [] (mkPagination 0 0 0 false false)
              end in
  let e := mkEntry 1 "Carol Singh" "ec23b3003@iiitdm.ac.in" (Qc_of_Z 10) 1500 in
  (sampleScores = [] → bestScore st = 0%Qc ∧ worstScore st = 0%Qc)
  ∧ Forall (λ sc, (bestScore st ≤ moves sc)%Qc ∧ (moves sc ≤ worstScore st)%Qc)
           sampleScores
  ∧ (sampleScores ≠ [] →
       (∃ sc, sc ∈ sampleScores ∧ moves sc = bestScore st)
       ∧ (∃ sc, sc ∈ sampleScores ∧ moves sc = worstScore st))
  ∧ (Forall (λ sc, is_Some (sampleUsers !! userId sc)) sampleScores →
     getLeaderboard sampleUsers sampleScores None None = Json 200 body →
     leaderboard body !! 0%nat = Some e →
     e_moves e = bestScore st).
Proof.
  exact (stats_extremes sampleUsers sampleScores
           (match getLeaderboard sampleUsers sampleScores None None with
            | Json _ body => body
            | Error _ _ => mkLeaderboardBody [] (mkPagination 0 0 0 false false)
            end)
           (mkEntry 1 "Carol Singh" "ec23b3003@iiitdm.ac.in" (Qc_of_Z 10) 1500)).
Defined.

(** The figures of the sample collection. *)
Example sample_stats :
  getStats sampleUsers sampleScores = mkStatsBody 5 5 (Qc_of_Z 10) (Qc_of_Z 30).
Proof. by vm_compute. Qed.

End LeaderboardExtras.

(* ===================================================================== *)
(** * The client and the server together                                  *)
(* ===================================================================== *)

Section EndToEnd.
Import Puzzle Server Text Accounts Client.

Lemma trim_nonempty_length (s : string) :
  trim s ≠ "" → (1 ≤ String.length (trim s))%nat.
Proof. destruct (trim s); [done|]. simpl. lia. Qed.

(** X18.  [handleAuth], whatever the form and whatever the reply.  It sends
    at most one request, and that request carries a trimmed, non-empty name
    and a lower-case address that matches the pattern.  When it sends
    nothing, the user, the form and the screen stay as they were and an error
    is shown.  When the request throws, the user is logged in offline, under
    that name and address, with the token [offline-token].  When the server
    refuses, nobody is logged in and an error is shown.  It never leaves
    [loading] on. *)
Theorem handleAuth_behaviour (currentUser : option Session) (ui : AuthUi)
    (reply : RegisterReply) :
  let r := handleAuth currentUser ui reply in
  let request := mkRegisterRequest (trim (f_name (authForm ui)))
                                   (toLowerCase (f_email (authForm ui))) in
  loading r.1.2 = false
  ∧ (r.2 = [] ∨ r.2 = [request])
  ∧ (r.2 = [request] →
       rq_name request ≠ "" ∧ trim (rq_name request) = rq_name request
       ∧ validateEmail (rq_email request) = true
       ∧ toLowerCase (rq_email request) = rq_email request)
  ∧ (r.2 = [] →
       r.1.1 = currentUser ∧ authForm r.1.2 = authForm ui
       ∧ showAuth r.1.2 = showAuth ui ∧ authError r.1.2 ≠ "")
  ∧ (r.2 = [request] → reply = ReplyThrew →
       r.1.1 = Some (mkSession (rq_name request) (rq_email request)
                               "offline-token")
       ∧ showAuth r.1.2 = false)
  ∧ (∀ error, reply = ReplyError error →
       r.1.1 = currentUser ∧ authError r.1.2 ≠ "").
Proof.
  intros r request. unfold r, request, handleAuth.
  case_bool_decide as Hname.
  { simpl. split_and!; try done; auto. }
  destruct (validateEmail (f_email (authForm ui))) eqn:Hemail; simpl.
  2:{ split_and!; try done; auto. }
  assert (Hreq : trim (f_name (authForm ui)) ≠ ""
                 ∧ trim (trim (f_name (authForm ui))) = trim (f_name (authForm ui))
                 ∧ validateEmail (toLowerCase (f_email (authForm ui))) = true
                 ∧ toLowerCase (toLowerCase (f_email (authForm ui)))
                   = toLowerCase (f_email (authForm ui))).
  { split_and!; [done|apply trim_idemp| |apply toLowerCase_idemp].
    by apply patternTest_toLowerCase. }
  destruct reply as [n e t|err|]; simpl.
  - split_and!; try done; auto.
  - split_and!; try done; auto.
    intros error [= <-]. split; [done|].
    destruct err as [msg|]; [|done]. by case_bool_decide.
  - split_and!; try done; auto.
Qed.

Lemma handleAuth_behaviour_witness :
  let ui := mkAuthUi true (mkAuthForm " Farah Khan " "CS23B2009@iiitdm.ac.in") "" false in
  let r := handleAuth None ui ReplyThrew in
  let request := mkRegisterRequest (trim (f_name (authForm ui)))
                                   (toLowerCase (f_email (authForm ui))) in
  loading r.1.2 = false
  ∧ (r.2 = [] ∨ r.2 = [request])
  ∧ (r.2 = [request] →
       rq_name request ≠ "" ∧ trim (rq_name request) = rq_name request
       ∧ validateEmail (rq_email request) = true
       ∧ toLowerCase (rq_email request) = rq_email request)
  ∧ (r.2 = [] →
       r.1.1 = None ∧ authForm r.1.2 = authForm ui
       ∧ showAuth r.1.2 = showAuth ui ∧ authError r.1.2 ≠ "")
  ∧ (r.2 = [request] → ReplyThrew = ReplyThrew →
       r.1.1 = Some (mkSession (rq_name request) (rq_email request)
                               "offline-token")
       ∧ showAuth r.1.2 = false)
  ∧ (∀ error, ReplyThrew = ReplyError error →
       r.1.1 = None ∧ authError r.1.2 ≠ "").
Proof.
  exact (handleAuth_behaviour None
           (mkAuthUi true (mkAuthForm " Farah Khan " "CS23B2009@iiitdm.ac.in") "" false)
           ReplyThrew).
Defined.

(** X19.  The form and the server.  For a form that passes the checks of
    [handleAuth], the request reaches [register] with a name and an address
    that it never finds missing or ill-formed; what decides is the length of
    the trimmed name and whether the address is taken.  With 2 to 50
    characters and a new address the account is created and the user is
    logged in with the name, the address and the token of the answer.  A
    name of one character, which the form lets through, is refused by the
    server, and so are a name of more than 50 and an address already
    registered: the collection is unchanged, nobody is logged in and the
    error of the server is shown. *)
Theorem form_reaches_server (L : Library) (users : gmap nat User) (now : Z)
    (newId : nat) (currentUser : option Session) (ui : AuthUi) :
  let n := trim (f_name (authForm ui)) in
  let e := toLowerCase (f_email (authForm ui)) in
  n ≠ "" → validateEmail (f_email (authForm ui)) = true →
  let resp := register L users now newId (Some n) (Some e) in
  let r := handleAuth currentUser ui (replyOf resp.1) in
  let taken := ∃ i u, users !! i = Some u ∧ email u = e in
  r.2 = [mkRegisterRequest n e]
  ∧ ((2 ≤ String.length n ≤ 50)%nat → ¬ taken →
       resp.2 = <[newId:=mkUser n e now]> users
       ∧ r.1.1 = Some (mkSession n e (sign L (mkJwtPayload newId e)))
       ∧ r.1.2 = mkAuthUi false (mkAuthForm "" "") "" false)
  ∧ (String.length n = 1%nat →
       resp.2 = users ∧ r.1.1 = currentUser
       ∧ authError r.1.2 = "Name must be at least 2 characters long")
  ∧ ((2 ≤ String.length n)%nat → taken →
       resp.2 = users ∧ r.1.1 = currentUser
       ∧ authError r.1.2 = "Email already registered")
  ∧ ((50 < String.length n)%nat →
       resp.2 = users ∧ r.1.1 = currentUser ∧ authError r.1.2 ≠ "").
Proof.
  intros n e Hn He resp r taken.
  assert (Hpat : patternTest e = true) by (by apply patternTest_toLowerCase).
  assert (Hresp : resp
    = if bool_decide (String.length n < 2)%nat then
        (Error 400 "Name must be at least 2 characters long", users)
      else
        match findUserByEmail users e with
        | Some _ => (Error 400 "Email already registered", users)
        | None =>
            if bool_decide (String.length n ≤ 50)%nat then
              (Json 201
                 (mkAuthBody "User registered successfully"
                    (mkPublicUser newId n e) (sign L (mkJwtPayload newId e))),
               <[newId:=mkUser n e now]> users)
            else (Error 400 (validationMessage L (mkUser n e now)), users)
        end).
  { by apply register_trimmed. }
  assert (Hrun : ∀ reply, handleAuth currentUser ui reply
    = match reply with
      | ReplyOk name email token =>
          (Some (mkSession name email token),
           mkAuthUi false (mkAuthForm "" "") "" false, [mkRegisterRequest n e])
      | ReplyError error =>
          (currentUser,
           mkAuthUi (showAuth ui) (authForm ui)
             match error with
             | Some m => if bool_decide (m = "") then "Registration failed" else m
             | None => "Registration failed"
             end false, [mkRegisterRequest n e])
      | ReplyThrew =>
          (Some (mkSession n e "offline-token"),
           mkAuthUi false (mkAuthForm "" "")
                    "Network error. Using offline mode." false,
           [mkRegisterRequest n e])
      end).
  { intros reply. unfold handleAuth. fold n e.
    rewrite bool_decide_eq_false_2 by done. rewrite He. simpl.
    by destruct reply. }
  unfold r. rewrite Hrun. clearbody resp. subst resp. split_and!.
  - by destruct (replyOf _).
  - intros [Hlo Hhi] Hfree.
    rewrite bool_decide_eq_false_2 by lia.
    destruct (findUserByEmail users e) as [[i u]|] eqn:Hfind.
    { exfalso. apply Hfree. exists i, u. by apply findUserByEmail_Some. }
    rewrite bool_decide_eq_true_2 by done. done.
  - intros Hone. rewrite bool_decide_eq_true_2 by lia. done.
  - intros Hlo (i & u & Hi & Heq).
    rewrite bool_decide_eq_false_2 by lia.
    destruct (findUserByEmail users e) as [[j v]|] eqn:Hfind; [done|].
    exfalso. by eapply findUserByEmail_None.
  - intros Hhi. rewrite bool_decide_eq_false_2 by lia.
    destruct (findUserByEmail users e); [done|].
    rewrite bool_decide_eq_false_2 by lia. simpl. split_and!; [done..|].
    by case_bool_decide.
Qed.

Lemma form_reaches_server_witness :
  let L := mkLibrary (λ p, "header.payload.signature") (λ _, None) (λ _, "invalid") in
  let ui := mkAuthUi true (mkAuthForm " Farah Khan " "CS23B2009@iiitdm.ac.in") "" false in
  let n := trim (f_name (authForm ui)) in
  let e := toLowerCase (f_email (authForm ui)) in
  let resp := register L sampleUsers 42 6 (Some n) (Some e) in
  let r := handleAuth None ui (replyOf resp.1) in
  let taken := ∃ i u, sampleUsers !! i = Some u ∧ email u = e in
  r.2 = [mkRegisterRequest n e]
  ∧ ((2 ≤ String.length n ≤ 50)%nat → ¬ taken →
       resp.2 = <[6%nat:=mkUser n e 42]> sampleUsers
       ∧ r.1.1 = Some (mkSession n e (sign L (mkJwtPayload 6 e)))
       ∧ r.1.2 = mkAuthUi false (mkAuthForm "" "") "" false)
  ∧ (String.length n = 1%nat →
       resp.2 = sampleUsers ∧ r.1.1 = None
       ∧ authError r.1.2 = "Name must be at least 2 characters long")
  ∧ ((2 ≤ String.length n)%nat → taken →
       resp.2 = sampleUsers ∧ r.1.1 = None
       ∧ authError r.1.2 = "Email already registered")
  ∧ ((50 < String.length n)%nat →
       resp.2 = sampleUsers ∧ r.1.1 = None ∧ authError r.1.2 ≠ "").
Proof.
  apply (form_reaches_server
           (mkLibrary (λ p, "header.payload.signature") (λ _, None) (λ _, "invalid"))
           sampleUsers 42 6 None
           (mkAuthUi true (mkAuthForm " Farah Khan " "CS23B2009@iiitdm.ac.in") "" false)).
  - vm_compute. discriminate.
  - reflexivity.
Defined.

Lemma sent_moves_positive (u : option Session) (l : list Action)
    (token : string) (finalMoves : Z) :
  PostScores token finalMoves ∈ (run (initialState u) l).2 → 1 ≤ finalMoves.
Proof.
  intros Hin.
  assert (Hinit : sendInvariant (omap id [u]) 0 (initialState u, [])).
  { split_and!; simpl; [done| |done|lia]. intros usr ->. set_solver. }
  apply (sendInvariant_run l) in Hinit. destruct Hinit as (_ & _ & Hout & _).
  cbn [fst snd app] in Hout. rewrite Forall_forall in Hout.
  by destruct (Hout _ Hin).
Qed.

(** X20.  From the win to the ledger.  Take any request that the game sends
    in any session of play, and deliver it to [POST /api/scores] as [fetch]
    and [express.json()] do.  If its token is non-empty, has no space and
    verifies as a user who has an account, the request is never refused: the
    answer is 200 or 201, and right afterwards [GET /api/user/score] shows
    that player a score of at most the moves that the game counted. *)
Theorem sent_score_is_recorded (L : Library) (users : gmap nat User)
    (scores : list Score) (now : Z) (u : option Session) (l : list Action)
    (token : string) (finalMoves : Z) (user : JwtPayload) :
  PostScores token finalMoves ∈ (run (initialState u) l).2 →
  token ≠ "" → without " " token →
  verify L token = Some user → is_Some (users !! jwt_userId user) →
  let rq := PostScores token finalMoves in
  let r := scoresRoute L users scores now (authorizationOf rq) (bodyMovesOf rq) in
  ∃ status body rank,
    r.1 = Json status body ∧ (status = 200 ∨ status = 201)
    ∧ getUserScore r.2 (jwt_userId user)
      = Json 200 (HasScore (r_moves (score body)) (r_completedAt (score body)) rank)
    ∧ (r_moves (score body) ≤ Qc_of_Z finalMoves)%Qc.
Proof.
  intros Hsent Hne Hnosp Hverify [acct Hacct] rq r.
  apply sent_moves_positive in Hsent.
  assert (Hm : (1 ≤ Qc_of_Z finalMoves)%Qc).
  { apply (proj1 (Z2Qc_inj_le 1 finalMoves)) in Hsent.
    by rewrite Z2Qc_inj_1 in Hsent. }
  assert (Hroute : r = postScores users scores now (jwt_userId user)
                                   (Some (Qc_of_Z finalMoves))).
  { unfold r, scoresRoute, authenticateToken. cbn [rq authorizationOf bodyMovesOf].
    change ("Bearer " +:+ token) with ("Bearer" +:+ " " +:+ token).
    rewrite bearerToken_second_word; [by rewrite Hverify| |done..].
    apply (bool_decide_unpack _). vm_compute. exact I. }
  destruct (postScores_outcome users scores now (jwt_userId user)
              (Some (Qc_of_Z finalMoves)))
    as [[_ Hlt]|[[_ Hnone]|(m & [= <-] & _ & _ & Hcases)]].
  { exfalso. apply (proj1 (Qcle_ngt _ _) Hm). by apply Hlt. }
  { congruence. }
  assert (∃ status body, r.1 = Json status body ∧ (status = 200 ∨ status = 201))
    as (status & body & Hr & Hstatus).
  { rewrite Hroute.
    destruct Hcases as [[_ ->]|[(? & ? & _ & _ & ->)|(? & ? & _ & _ & ->)]];
      eauto 6. }
  exists status, body.
  rewrite Hroute in Hr |- *.
  destruct (postScores_then_findOne _ _ _ _ _ _ _ Hr)
    as (i & sc & Hfind & Hmoves & Htime & m' & [= <-] & _ & Hle).
  unfold getUserScore. rewrite Hfind, Hmoves, Htime.
  eexists. split_and!; [done..|]. by rewrite <- Hmoves.
Qed.

Lemma sent_score_is_recorded_witness :
  let L := mkLibrary (λ p, "header.payload.signature")
             (λ t, if bool_decide (t = "header.payload.signature")
                   then Some (mkJwtPayload 5 "me23c5005@iiitdm.ac.in") else None)
             (λ _, "invalid") in
  let rq := PostScores "header.payload.signature" 10 in
  let r := scoresRoute L sampleUsers sampleScores 9000
             (authorizationOf rq) (bodyMovesOf rq) in
  ∃ status body rank,
    r.1 = Json status body ∧ (status = 200 ∨ status = 201)
    ∧ getUserScore r.2 5
      = Json 200 (HasScore (r_moves (score body)) (r_completedAt (score body)) rank)
    ∧ (r_moves (score body) ≤ Qc_of_Z 10)%Qc.
Proof.
  apply (sent_score_is_recorded
           (mkLibrary (λ p, "header.payload.signature")
              (λ t, if bool_decide (t = "header.payload.signature")
                    then Some (mkJwtPayload 5 "me23c5005@iiitdm.ac.in") else None)
              (λ _, "invalid"))
           sampleUsers sampleScores 9000
           (Some (mkSession "Eva Reddy" "me23c5005@iiitdm.ac.in"
                            "header.payload.signature"))
           solution "header.payload.signature" 10
           (mkJwtPayload 5 "me23c5005@iiitdm.ac.in")).
  - vm_compute. apply list_elem_of_here.
  - discriminate.
  - apply (bool_decide_unpack _). vm_compute. exact I.
  - reflexivity.
  - apply (bool_decide_unpack _). vm_compute. exact I.
Defined.

(** X21.  From registration to the first score.  A player registers; the
    token of the answer verifies as that player (and, like any such token, is
    non-empty and has no space).  Sent as [Bearer <token>], it gets the player
    through [authenticateToken]: before any submission
    [GET /api/user/score] answers [hasScore: false]; a first submission of
    [moves >= 1] is answered 201 and adds the player's record with these
    moves; and [GET /api/user/score] then shows these moves. *)
Theorem new_player_first_score (L : Library) (users : gmap nat User)
    (scores : list Score) (now1 now2 : Z) (newId : nat) (n e : string) (m : Qc) :
  let reg := register L users now1 newId (Some n) (Some e) in
  let payload := mkJwtPayload newId (toLowerCase e) in
  let token := sign L payload in
  let header := Some ("Bearer " +:+ token) in
  let record := mkScore newId m now2 defaultGameConfiguration in
  canRegister users n e →
  Forall (λ sc, userId sc ≠ newId) scores →
  verify L token = Some payload → token ≠ "" → without " " token →
  (1 ≤ m)%Qc →
  (∃ body, reg.1 = Json 201 body ∧ a_token body = token)
  ∧ userScoreRoute L scores header = Json 200 NoScore
  ∧ scoresRoute L reg.2 scores now2 header (Some m)
    = (Json 201 (mkScoreBody "Score submitted successfully!"
                   (mkScoreResult m now2 true)),
       scores ++ [record])
  ∧ ∃ rank, userScoreRoute L (scores ++ [record]) header
            = Json 200 (HasScore m now2 rank).
Proof.
  intros reg payload token header record Hcan Hnone Hverify Hne Hnosp Hm.
  assert (Hauth : authenticateToken L header = Authenticated payload).
  { unfold authenticateToken, header.
    change ("Bearer " +:+ token) with ("Bearer" +:+ " " +:+ token).
    rewrite bearerToken_second_word; [by rewrite Hverify| |done..].
    apply (bool_decide_unpack _). vm_compute. exact I. }
  assert (Hfind : findOne newId scores = None) by (by apply list_find_None).
  unfold reg. rewrite (register_success L users now1 newId n e Hcan).
  cbn [fst snd]. split_and!.
  - eexists. split; [done|]. done.
  - unfold userScoreRoute. rewrite Hauth. cbn [jwt_userId payload].
    unfold getUserScore. by rewrite Hfind.
  - unfold scoresRoute. rewrite Hauth. cbn [jwt_userId payload].
    unfold postScores. rewrite accepted_moves by done.
    rewrite lookup_insert_eq, Hfind.
    by rewrite validateScore_accepted.
  - unfold userScoreRoute. rewrite Hauth. cbn [jwt_userId payload].
    unfold getUserScore.
    rewrite (findOne_snoc_new scores newId record) by done. eauto.
Qed.

Lemma new_player_first_score_witness :
  let L := mkLibrary (λ p, "header.payload.signature")
             (λ t, if bool_decide (t = "header.payload.signature")
                   then Some (mkJwtPayload 6 "cs23b2009@iiitdm.ac.in") else None)
             (λ _, "invalid") in
  let reg := register L sampleUsers 42 6 (Some " Farah Khan ")
                      (Some "CS23B2009@iiitdm.ac.in") in
  let payload := mkJwtPayload 6 (toLowerCase "CS23B2009@iiitdm.ac.in") in
  let token := sign L payload in
  let header := Some ("Bearer " +:+ token) in
  let record := mkScore 6 (Qc_of_Z 14) 9000 defaultGameConfiguration in
  (∃ body, reg.1 = Json 201 body ∧ a_token body = token)
  ∧ userScoreRoute L sampleScores header = Json 200 NoScore
  ∧ scoresRoute L reg.2 sampleScores 9000 header (Some (Qc_of_Z 14))
    = (Json 201 (mkScoreBody "Score submitted successfully!"
                   (mkScoreResult (Qc_of_Z 14) 9000 true)),
       sampleScores ++ [record])
  ∧ ∃ rank, userScoreRoute L (sampleScores ++ [record]) header
            = Json 200 (HasScore (Qc_of_Z 14) 9000 rank).
Proof.
  apply (new_player_first_score
           (mkLibrary (λ p, "header.payload.signature")
              (λ t, if bool_decide (t = "header.payload.signature")
                    then Some (mkJwtPayload 6 "cs23b2009@iiitdm.ac.in") else None)
              (λ _, "invalid"))
           sampleUsers sampleScores 42 9000 6 " Farah Khan "
           "CS23B2009@iiitdm.ac.in" (Qc_of_Z 14)).
  - apply (bool_decide_unpack _). vm_compute. exact I.
  - apply (bool_decide_unpack _). vm_compute. exact I.
  - reflexivity.
  - discriminate.
  - apply (bool_decide_unpack _). vm_compute. exact I.
  - vm_compute. discriminate.
Defined.

End EndToEnd.
